(** * sss_ornament_2023_fw: a shallow embedding of the ornament firmware

    The firmware (sss_ornament_2023_fw.ino) runs on a tinyAVR 1-series part.
    Every routine is embedded as a function on an explicit [world]: the two
    globals, the last value driven on each pin, the peripheral registers, the
    sleep controller, and the trace of everything the firmware did to the
    outside.  Inputs (the millisecond counter, pin levels, the timer status
    register, whether an interrupt ever ends a sleep) come from an
    [environment] oracle indexed by the number of inputs consumed so far.
    The pin interrupt is modelled where the main program depends on it, as
    the event that ends a sleep; its preemption of the running main loop is
    not modelled.  Loops that need not terminate take a [fuel] bound. *)

From Stdlib Require Import ZArith List Bool Lia.
Import ListNotations.
Local Open Scope Z_scope.

(** ** Machine integers of the target *)

Module AVR.

(** [uint8_t] and [uint32_t] wrap modulo their width. *)
Definition to_uint8 (z : Z) : Z := z mod 256.
Definition to_uint32 (z : Z) : Z := z mod 4294967296.

Definition is_uint32 (z : Z) : Prop := 0 <= z < 4294967296.

(** [int] is 16 bits wide with avr-gcc.  Converting an out-of-range value
    to [int] keeps the low 16 bits (two's complement). *)
Definition to_int (z : Z) : Z := (z + 32768) mod 65536 - 32768.

(** Arithmetic on [int] that leaves the range is undefined behaviour. *)
Definition in_int (z : Z) : bool := (-32768 <=? z) && (z <=? 32767).

(** [a / b] on [int]: truncation toward zero, undefined for [b = 0]. *)
Definition int_div (a b : Z) : option Z :=
  if b =? 0 then None else Some (Z.quot a b).

End AVR.
Import AVR.

(** ** Pins, registers, events *)

Inductive pin : Type := PIN_PA1 | PIN_PA2 | PIN_PA3 | PIN_PA6 | PIN_PA7.

Definition PANO_LED_R_PIN : pin := PIN_PA7.
Definition PANO_LED_G_PIN : pin := PIN_PA2.
Definition PANO_LED_B_PIN : pin := PIN_PA1.
Definition HOUSE_LED_PIN : pin := PIN_PA6.
Definition PIR_IN : pin := PIN_PA3.

Definition pin_eqb (p q : pin) : bool :=
  match p, q with
  | PIN_PA1, PIN_PA1 | PIN_PA2, PIN_PA2 | PIN_PA3, PIN_PA3
  | PIN_PA6, PIN_PA6 | PIN_PA7, PIN_PA7 => true
  | _, _ => false
  end.

Inductive level : Type := LOW | HIGH.

(** What a pin was last told to output: a level ([digitalWrite]) or a PWM
    duty value ([analogWrite]). *)
Inductive drive : Type :=
| Digital (l : level)
| Pwm (duty : Z).

(** The registers the modelled routines touch. *)
Inductive reg : Type :=
| TCD0_CTRLA | TCD0_CTRLC | TCD0_FAULTCTRL | TCD0_STATUS
| CPU_CCP | PORTA_INTFLAGS.

Definition reg_eqb (r s : reg) : bool :=
  match r, s with
  | TCD0_CTRLA, TCD0_CTRLA | TCD0_CTRLC, TCD0_CTRLC
  | TCD0_FAULTCTRL, TCD0_FAULTCTRL | TCD0_STATUS, TCD0_STATUS
  | CPU_CCP, CPU_CCP | PORTA_INTFLAGS, PORTA_INTFLAGS => true
  | _, _ => false
  end.

Inductive sleep_mode_t : Type :=
| SLEEP_MODE_IDLE | SLEEP_MODE_STANDBY | SLEEP_MODE_PWR_DOWN.

(** Everything observable, in program order.  [EvPanoLedWrite] marks the
    entry into [pano_led_write] with its two arguments, so that the
    arguments of each call can be read back from the trace. *)
Inductive event : Type :=
| EvPanoLedWrite (color duty_cycle : Z)
| EvAnalogWrite (p : pin) (duty : Z)
| EvDigitalWrite (p : pin) (l : level)
| EvDelay (ms : Z)
| EvRegRead (r : reg) (v : Z)
| EvRegWrite (r : reg) (v : Z)
| EvSleep (m : sleep_mode_t)
| EvWake.

(** ** The device state *)

Record world : Type := mkWorld {
  start_ms : Z;                 (* volatile uint32_t start_ms *)
  current_pano_color : Z;       (* pano_color_t, as its integer value *)
  pin_out : pin -> drive;
  regs : reg -> Z;
  sleep_enabled : bool;         (* the SEN bit of the sleep controller *)
  sleep_mode : sleep_mode_t;
  reads : nat;                  (* inputs consumed from the environment *)
  trace : list event
}.

Record environment : Type := mkEnv {
  env_millis : nat -> Z;        (* what millis() returns *)
  env_pin : nat -> pin -> level;(* what digitalRead(pin) returns *)
  env_status : nat -> Z;        (* what TCD0.STATUS reads as *)
  env_wake : nat -> bool        (* does the sensor interrupt end this sleep *)
}.

(** Bit masks and group codes of the device header, which is not part of
    the repository: taken as parameters. *)
Record io_header : Type := mkHeader {
  TCD_ENABLE_bm : Z;
  TCD_CMPOVR_bm : Z;
  TCD_CMPAEN_bm : Z;
  TCD_ENRDY_bm : Z;
  CCP_IOREG_gc : Z
}.

Definition set_start_ms (v : Z) (w : world) : world :=
  mkWorld v (current_pano_color w) (pin_out w) (regs w)
          (sleep_enabled w) (sleep_mode w) (reads w) (trace w).

Definition set_current_pano_color (v : Z) (w : world) : world :=
  mkWorld (start_ms w) v (pin_out w) (regs w)
          (sleep_enabled w) (sleep_mode w) (reads w) (trace w).

Definition set_pin (p : pin) (d : drive) (w : world) : world :=
  mkWorld (start_ms w) (current_pano_color w)
          (fun q => if pin_eqb q p then d else pin_out w q) (regs w)
          (sleep_enabled w) (sleep_mode w) (reads w) (trace w).

Definition set_reg (r : reg) (v : Z) (w : world) : world :=
  mkWorld (start_ms w) (current_pano_color w) (pin_out w)
          (fun s => if reg_eqb s r then v else regs w s)
          (sleep_enabled w) (sleep_mode w) (reads w) (trace w).

Definition set_sleep_enabled (b : bool) (w : world) : world :=
  mkWorld (start_ms w) (current_pano_color w) (pin_out w) (regs w)
          b (sleep_mode w) (reads w) (trace w).

Definition set_sleep_mode_field (m : sleep_mode_t) (w : world) : world :=
  mkWorld (start_ms w) (current_pano_color w) (pin_out w) (regs w)
          (sleep_enabled w) m (reads w) (trace w).

Definition consume_input (w : world) : world :=
  mkWorld (start_ms w) (current_pano_color w) (pin_out w) (regs w)
          (sleep_enabled w) (sleep_mode w) (S (reads w)) (trace w).

Definition emit (e : event) (w : world) : world :=
  mkWorld (start_ms w) (current_pano_color w) (pin_out w) (regs w)
          (sleep_enabled w) (sleep_mode w) (reads w) (trace w ++ [e]).

(** ** Outcomes and the monad of firmware routines *)

Inductive result (A : Type) : Type :=
| Done (a : A) (w : world)      (* returned normally *)
| Undefined (w : world)         (* reached undefined behaviour *)
| OutOfFuel (w : world)         (* a loop was still running *)
| Asleep (w : world).           (* halted in sleep, never woken *)

Arguments Done {A} a w.
Arguments Undefined {A} w.
Arguments OutOfFuel {A} w.
Arguments Asleep {A} w.

Definition world_of {A : Type} (r : result A) : world :=
  match r with
  | Done _ w | Undefined w | OutOfFuel w | Asleep w => w
  end.

Definition M (A : Type) : Type := world -> result A.

Definition ret {A : Type} (a : A) : M A := fun w => Done a w.

Definition bind {A B : Type} (m : M A) (k : A -> M B) : M B :=
  fun w =>
    match m w with
    | Done a w' => k a w'
    | Undefined w' => Undefined w'
    | OutOfFuel w' => OutOfFuel w'
    | Asleep w' => Asleep w'
    end.

Notation "x <- m ;; k" := (bind m (fun x => k))
  (at level 61, m at next level, right associativity).
Notation "m ;; k" := (bind m (fun _ => k))
  (at level 61, right associativity).

Definition undefined {A : Type} : M A := fun w => Undefined w.
Definition out_of_fuel {A : Type} : M A := fun w => OutOfFuel w.
Definition modify (f : world -> world) : M unit := fun w => Done tt (f w).
Definition gets {A : Type} (f : world -> A) : M A := fun w => Done (f w) w.

(** A partial [int] operation: [None] is undefined behaviour. *)
Definition defined (o : option Z) : M Z :=
  match o with
  | Some v => ret v
  | None => undefined
  end.

(** ** The Arduino core and avr-libc calls the firmware makes *)

Definition digitalWrite (p : pin) (l : level) : M unit :=
  modify (fun w => emit (EvDigitalWrite p l) (set_pin p (Digital l) w)).

Definition analogWrite (p : pin) (duty : Z) : M unit :=
  modify (fun w => emit (EvAnalogWrite p duty) (set_pin p (Pwm duty) w)).

Definition delay (ms : Z) : M unit := modify (emit (EvDelay ms)).

Definition reg_write (r : reg) (v : Z) : M unit :=
  modify (fun w => emit (EvRegWrite r v) (set_reg r v w)).

(** ** The firmware *)

Definition PANO_LED_DUTY_CYCLE : Z := 70.
Definition SLEEP_TIMEOUT_MIN : Z := 15.
Definition SLEEP_TIMEOUT_MS : Z := to_uint32 (1000 * 60 * SLEEP_TIMEOUT_MIN).

(** [pano_color_t]: the enumerators in declaration order. *)
Definition PANO_COLOR_RED : Z := 0.
Definition PANO_COLOR_GREEN : Z := 1.
Definition PANO_COLOR_BLUE : Z := 2.
Definition PANO_COLOR_BROWN : Z := 3.
Definition PANO_COLOR_CYAN : Z := 4.
Definition PANO_COLOR_YELLOW : Z := 5.
Definition PANO_COLOR_COUNT : Z := 6.

Definition pano_colors : list Z :=
  [PANO_COLOR_RED; PANO_COLOR_GREEN; PANO_COLOR_BLUE;
   PANO_COLOR_BROWN; PANO_COLOR_CYAN; PANO_COLOR_YELLOW].

(** [pano_led_write]: the [switch] over the colour, with its [default]. *)
Definition pano_led_write (color duty_cycle : Z) : M unit :=
  modify (emit (EvPanoLedWrite color duty_cycle)) ;;
  if color =? PANO_COLOR_RED then
    analogWrite PANO_LED_R_PIN duty_cycle ;;
    digitalWrite PANO_LED_G_PIN LOW ;;
    digitalWrite PANO_LED_B_PIN LOW
  else if color =? PANO_COLOR_GREEN then
    analogWrite PANO_LED_G_PIN duty_cycle ;;
    digitalWrite PANO_LED_R_PIN LOW ;;
    digitalWrite PANO_LED_B_PIN LOW
  else if color =? PANO_COLOR_BLUE then
    analogWrite PANO_LED_B_PIN duty_cycle ;;
    digitalWrite PANO_LED_R_PIN LOW ;;
    digitalWrite PANO_LED_G_PIN LOW
  else if color =? PANO_COLOR_BROWN then
    analogWrite PANO_LED_R_PIN duty_cycle ;;
    analogWrite PANO_LED_G_PIN duty_cycle ;;
    digitalWrite PANO_LED_B_PIN LOW
  else if color =? PANO_COLOR_CYAN then
    analogWrite PANO_LED_G_PIN duty_cycle ;;
    analogWrite PANO_LED_B_PIN duty_cycle ;;
    digitalWrite PANO_LED_R_PIN LOW
  else if color =? PANO_COLOR_YELLOW then
    analogWrite PANO_LED_R_PIN duty_cycle ;;
    analogWrite PANO_LED_B_PIN duty_cycle ;;
    digitalWrite PANO_LED_G_PIN LOW
  else
    digitalWrite PANO_LED_R_PIN LOW ;;
    digitalWrite PANO_LED_G_PIN LOW ;;
    digitalWrite PANO_LED_B_PIN LOW.

(** *** pano_led_pulse *)

Definition step_delay_ms : Z := 10.

(** [int steps = duration_ms / step_delay_ms]: the division is done on
    [uint32_t], the quotient is then stored in an [int]. *)
Definition pulse_steps (duration_ms : Z) : Z :=
  to_int (duration_ms / step_delay_ms).

(** [int duty_increment = PANO_LED_DUTY_CYCLE / steps]. *)
Definition pulse_duty_increment (duration_ms : Z) : option Z :=
  int_div PANO_LED_DUTY_CYCLE (pulse_steps duration_ms).

(** [for (new_duty = 0; new_duty <= PANO_LED_DUTY_CYCLE; new_duty += duty_increment)];
    [fuel] bounds the number of times the loop condition is evaluated. *)
Fixpoint ramp_up (fuel : nat) (color duty_increment new_duty : Z) : M unit :=
  match fuel with
  | O => out_of_fuel
  | S fuel' =>
      if new_duty <=? PANO_LED_DUTY_CYCLE then
        pano_led_write color (to_uint8 new_duty) ;;
        delay step_delay_ms ;;
        if in_int (new_duty + duty_increment)
        then ramp_up fuel' color duty_increment (new_duty + duty_increment)
        else undefined
      else ret tt
  end.

(** [for (new_duty = PANO_LED_DUTY_CYCLE; new_duty >= 0; new_duty -= duty_increment)]. *)
Fixpoint ramp_down (fuel : nat) (color duty_increment new_duty : Z) : M unit :=
  match fuel with
  | O => out_of_fuel
  | S fuel' =>
      if new_duty >=? 0 then
        pano_led_write color (to_uint8 new_duty) ;;
        delay step_delay_ms ;;
        if in_int (new_duty - duty_increment)
        then ramp_down fuel' color duty_increment (new_duty - duty_increment)
        else undefined
      else ret tt
  end.

Definition pano_led_pulse (fuel : nat) (color on_duration_ms off_duration_ms : Z)
  : M unit :=
  duty_increment <- defined (pulse_duty_increment on_duration_ms) ;;
  ramp_up fuel color duty_increment 0 ;;
  duty_increment <- defined (pulse_duty_increment off_duration_ms) ;;
  ramp_down fuel color duty_increment PANO_LED_DUTY_CYCLE.

(** *** The colour advance at the end of [loop] *)

(** [(pano_color_t)((uint8_t)current_pano_color + 1)], then the wrap to
    [PANO_COLOR_RED] when the result is [PANO_COLOR_COUNT]. *)
Definition next_pano_color (c : Z) : Z :=
  let c' := to_uint8 c + 1 in
  if c' =? PANO_COLOR_COUNT then PANO_COLOR_RED else c'.

Section Firmware.

Variable env : environment.
Variable hdr : io_header.

Definition millis : M Z :=
  fun w => Done (to_uint32 (env_millis env (reads w))) (consume_input w).

Definition digitalRead (p : pin) : M level :=
  fun w => Done (env_pin env (reads w) p) (consume_input w).

(** A register read.  [TCD0.STATUS] is driven by the hardware; the other
    registers read back what was last written. *)
Definition reg_read (r : reg) : M Z :=
  fun w =>
    match r with
    | TCD0_STATUS =>
        let v := env_status env (reads w) in
        Done v (emit (EvRegRead r v) (consume_input w))
    | _ => Done (regs w r) (emit (EvRegRead r (regs w r)) w)
    end.

(** [ISR(PORTA_PORT_vect)] *)
Definition PORTA_PORT_vect : M unit :=
  reg_write PORTA_INTFLAGS 255 ;;
  now <- millis ;;
  modify (set_start_ms now).

Definition sleep_enable : M unit := modify (set_sleep_enabled true).
Definition sleep_disable : M unit := modify (set_sleep_enabled false).
Definition set_sleep_mode (m : sleep_mode_t) : M unit :=
  modify (set_sleep_mode_field m).

(** The [sleep] instruction: a no-op unless sleep is enabled; otherwise
    the core halts in the selected mode until the pin interrupt arrives,
    whose handler runs before execution resumes. *)
Definition sleep_cpu : M unit :=
  fun w =>
    if sleep_enabled w then
      let w1 := emit (EvSleep (sleep_mode w)) w in
      if env_wake env (reads w1)
      then PORTA_PORT_vect (emit EvWake (consume_input w1))
      else Asleep w1
    else Done tt w.

Definition deep_sleep : M unit :=
  digitalWrite PANO_LED_R_PIN LOW ;;
  digitalWrite PANO_LED_G_PIN LOW ;;
  digitalWrite PANO_LED_B_PIN LOW ;;
  digitalWrite HOUSE_LED_PIN LOW ;;
  sleep_enable ;;
  set_sleep_mode SLEEP_MODE_STANDBY ;;
  sleep_cpu ;;
  now <- millis ;;
  modify (set_start_ms now) ;;
  sleep_disable.

(** *** house_led_pwm_start *)

(** [while (!(TCD0.STATUS & TCD_ENRDY_bm)) { ; }] *)
Fixpoint wait_enable_ready (fuel : nat) : M unit :=
  match fuel with
  | O => out_of_fuel
  | S fuel' =>
      status <- reg_read TCD0_STATUS ;;
      if Z.land status (TCD_ENRDY_bm hdr) =? 0
      then wait_enable_ready fuel'
      else ret tt
  end.

Definition house_led_pwm_start (fuel : nat) : M unit :=
  ctrlc <- reg_read TCD0_CTRLC ;;
  reg_write TCD0_CTRLC (Z.land ctrlc (Z.lnot (TCD_CMPOVR_bm hdr))) ;;
  reg_write CPU_CCP (CCP_IOREG_gc hdr) ;;
  reg_write TCD0_FAULTCTRL (TCD_CMPAEN_bm hdr) ;;
  wait_enable_ready fuel ;;
  ctrla <- reg_read TCD0_CTRLA ;;
  reg_write TCD0_CTRLA (Z.lor ctrla (TCD_ENABLE_bm hdr)).

(** *** loop *)

(** The timeout check that opens [loop]. *)
Definition power_control : M unit :=
  now <- millis ;;
  start <- gets start_ms ;;
  if to_uint32 (now - start) >? SLEEP_TIMEOUT_MS then
    pir <- digitalRead PIR_IN ;;
    match pir with
    | LOW => deep_sleep
    | HIGH => now' <- millis ;; modify (set_start_ms now')
    end
  else ret tt.

Definition pulse_current (fuel : nat) (on_ms off_ms : Z) : M unit :=
  color <- gets current_pano_color ;;
  pano_led_pulse fuel color on_ms off_ms.

(** The five pulses and the colour advance that follow the check. *)
Definition animate (fuel : nat) : M unit :=
  pulse_current fuel 200 200 ;;
  pulse_current fuel 200 200 ;;
  pulse_current fuel 200 200 ;;
  pulse_current fuel 100 100 ;;
  pulse_current fuel 100 100 ;;
  color <- gets current_pano_color ;;
  modify (set_current_pano_color (next_pano_color color)).

Definition loop (fuel : nat) : M unit :=
  power_control ;;
  animate fuel.

End Firmware.

(** ** Reading a trace *)

(** The duty values passed to [pano_led_write], in call order. *)
Fixpoint duties_written (tr : list event) : list Z :=
  match tr with
  | [] => []
  | EvPanoLedWrite _ d :: tr' => d :: duties_written tr'
  | _ :: tr' => duties_written tr'
  end.

(** What one call of [pano_led_write] does to the pins, event by event. *)
Definition pano_led_write_events (color duty_cycle : Z) : list event :=
  EvPanoLedWrite color duty_cycle ::
  if color =? PANO_COLOR_RED then
    [EvAnalogWrite PANO_LED_R_PIN duty_cycle;
     EvDigitalWrite PANO_LED_G_PIN LOW; EvDigitalWrite PANO_LED_B_PIN LOW]
  else if color =? PANO_COLOR_GREEN then
    [EvAnalogWrite PANO_LED_G_PIN duty_cycle;
     EvDigitalWrite PANO_LED_R_PIN LOW; EvDigitalWrite PANO_LED_B_PIN LOW]
  else if color =? PANO_COLOR_BLUE then
    [EvAnalogWrite PANO_LED_B_PIN duty_cycle;
     EvDigitalWrite PANO_LED_R_PIN LOW; EvDigitalWrite PANO_LED_G_PIN LOW]
  else if color =? PANO_COLOR_BROWN then
    [EvAnalogWrite PANO_LED_R_PIN duty_cycle;
     EvAnalogWrite PANO_LED_G_PIN duty_cycle; EvDigitalWrite PANO_LED_B_PIN LOW]
  else if color =? PANO_COLOR_CYAN then
    [EvAnalogWrite PANO_LED_G_PIN duty_cycle;
     EvAnalogWrite PANO_LED_B_PIN duty_cycle; EvDigitalWrite PANO_LED_R_PIN LOW]
  else if color =? PANO_COLOR_YELLOW then
    [EvAnalogWrite PANO_LED_R_PIN duty_cycle;
     EvAnalogWrite PANO_LED_B_PIN duty_cycle; EvDigitalWrite PANO_LED_G_PIN LOW]
  else
    [EvDigitalWrite PANO_LED_R_PIN LOW;
     EvDigitalWrite PANO_LED_G_PIN LOW; EvDigitalWrite PANO_LED_B_PIN LOW].

(** One ramp step as seen from outside: the write, then the wait. *)
Definition ramp_step_events (color new_duty : Z) : list event :=
  pano_led_write_events color (to_uint8 new_duty) ++ [EvDelay step_delay_ms].

(** The events of a ramp that visits the duty values [ds] in turn. *)
Definition ramp_events (color : Z) (ds : list Z) : list event :=
  flat_map (ramp_step_events color) ds.

(** The arithmetic progression [start, start + step, ...] of length [n]. *)
Fixpoint progression (n : nat) (start step : Z) : list Z :=
  match n with
  | O => []
  | S n' => start :: progression n' (start + step) step
  end.

(** Which of the red, green and blue channels each colour lights; every
    value that is not one of the six colours lights none. *)
Definition lit_channels (color : Z) : bool * bool * bool :=
  if color =? PANO_COLOR_RED then (true, false, false)
  else if color =? PANO_COLOR_GREEN then (false, true, false)
  else if color =? PANO_COLOR_BLUE then (false, false, true)
  else if color =? PANO_COLOR_BROWN then (true, true, false)
  else if color =? PANO_COLOR_CYAN then (false, true, true)
  else if color =? PANO_COLOR_YELLOW then (true, false, true)
  else (false, false, false).

(** A lit channel carries the duty value, an unlit one is forced low. *)
Definition channel_drive (lit : bool) (duty_cycle : Z) : drive :=
  if lit then Pwm duty_cycle else Digital LOW.

(** The state a routine leaves behind whatever its outcome. *)
Definition after {A : Type} (m : M A) (w : world) : world := world_of (m w).

(** The fields no pin write touches. *)
Definition globals (w : world) : Z * Z * bool * sleep_mode_t * nat :=
  (start_ms w, current_pano_color w, sleep_enabled w, sleep_mode w, reads w).

(** One iteration body of either ramp: the write, then the wait. *)
Definition ramp_step (color new_duty : Z) : M unit :=
  pano_led_write color (to_uint8 new_duty) ;;
  delay step_delay_ms.

Definition duty_in_range (d : Z) : Prop := 0 <= d <= PANO_LED_DUTY_CYCLE.

(** The device out of reset, once [setup] has selected the first colour:
    globals zero-initialised, every output low, sleep disabled. *)
Definition boot_world : world :=
  mkWorld 0 PANO_COLOR_RED (fun _ => Digital LOW) (fun _ => 0)
          false SLEEP_MODE_IDLE 0 [].

(** [millis() - start_ms] as the test at the top of [loop] computes it. *)
Definition elapsed_ms (env : environment) (w : world) : Z :=
  to_uint32 (to_uint32 (env_millis env (reads w)) - start_ms w).

(** Does a value read from [TCD0.STATUS] have the enable-ready bit set? *)
Definition enable_ready (hdr : io_header) (status : Z) : bool :=
  negb (Z.land status (TCD_ENRDY_bm hdr) =? 0).

(** A sample environment: the clock reads 1000000 ms at every call, the
    sensor pin is low, the timer reports ready from its third status read
    on, and the sensor interrupt does arrive. *)
Definition quiet_room : environment :=
  mkEnv (fun _ => 1000000) (fun _ _ => LOW)
        (fun n => if Nat.ltb n 2 then 0 else 1) (fun _ => true).

(** The same with the sensor pin held high. *)
Definition busy_room : environment :=
  mkEnv (fun _ => 1000000) (fun _ _ => HIGH)
        (fun n => if Nat.ltb n 2 then 0 else 1) (fun _ => true).

(** Masks to run samples with: the values the tinyAVR 1-series device
    header gives them. *)
Definition attiny_header : io_header := mkHeader 1 16 16 1 216.

(** The state [house_led_pwm_start] has reached once the override is
    cleared and the output unlocked and enabled, just before it polls. *)
Definition pwm_unlocked (hdr : io_header) (w : world) : world :=
  let ctrlc := regs w TCD0_CTRLC in
  let cleared := Z.land ctrlc (Z.lnot (TCD_CMPOVR_bm hdr)) in
  emit (EvRegWrite TCD0_FAULTCTRL (TCD_CMPAEN_bm hdr))
    (set_reg TCD0_FAULTCTRL (TCD_CMPAEN_bm hdr)
      (emit (EvRegWrite CPU_CCP (CCP_IOREG_gc hdr))
        (set_reg CPU_CCP (CCP_IOREG_gc hdr)
          (emit (EvRegWrite TCD0_CTRLC cleared)
            (set_reg TCD0_CTRLC cleared
              (emit (EvRegRead TCD0_CTRLC ctrlc) w)))))).

(** ** Further observations on states and traces *)

(** The time spent in [delay], in milliseconds. *)
Fixpoint delay_total (tr : list event) : Z :=
  match tr with
  | [] => 0
  | EvDelay ms :: tr' => ms + delay_total tr'
  | _ :: tr' => delay_total tr'
  end.

(** How many writes a ramp with a positive increment makes. *)
Definition ramp_writes (inc : Z) : nat :=
  Z.to_nat (PANO_LED_DUTY_CYCLE / inc + 1).

(** [n] successive calls of [loop], the way the core's [main] makes them. *)
Fixpoint loops (env : environment) (fuel n : nat) : M unit :=
  match n with
  | O => ret tt
  | S n' => loop env fuel ;; loops env fuel n'
  end.

(** A routine keeps a relation when the state it leaves, whatever its
    outcome, is related to the state it started from. *)
Definition keeps {A : Type} (R : world -> world -> Prop) (m : M A) : Prop :=
  forall w, R w (after m w).

(** Everything outside the three pano channels and the trace. *)
Definition outside_pano (w : world)
  : (Z * Z * bool * sleep_mode_t * nat) * (reg -> Z) * drive * drive :=
  (globals w, regs w, pin_out w HOUSE_LED_PIN, pin_out w PIR_IN).

Definition same_outside_pano (w w' : world) : Prop :=
  outside_pano w' = outside_pano w.

Definition same_colour (w w' : world) : Prop :=
  current_pano_color w' = current_pano_color w.



(** The house LED pin, once low, is low; no register but the port's
    interrupt flags has changed. *)
Definition house_stays_low (w w' : world) : Prop :=
  (pin_out w HOUSE_LED_PIN = Digital LOW ->
   pin_out w' HOUSE_LED_PIN = Digital LOW)
  /\ (forall r, r <> PORTA_INTFLAGS -> regs w' r = regs w r).

(** A sample environment in which the timer never reports ready and no
    interrupt ever arrives. *)
Definition dead_room : environment :=
  mkEnv (fun _ => 1000000) (fun _ _ => LOW) (fun _ => 0) (fun _ => false).

(** * Properties *)

(** ** pano_led_write *)

Ltac run_write :=
  cbv [pano_led_write bind modify analogWrite digitalWrite delay after world_of].

Ltac split_colour c :=
  destruct (c =? PANO_COLOR_RED) eqn:?;
  [| destruct (c =? PANO_COLOR_GREEN) eqn:?;
     [| destruct (c =? PANO_COLOR_BLUE) eqn:?;
        [| destruct (c =? PANO_COLOR_BROWN) eqn:?;
           [| destruct (c =? PANO_COLOR_CYAN) eqn:?;
              [| destruct (c =? PANO_COLOR_YELLOW) eqn:? ]]]]].

Lemma pano_led_write_done (color duty_cycle : Z) (w : world) :
  pano_led_write color duty_cycle w
  = Done tt (after (pano_led_write color duty_cycle) w).
Proof. run_write. split_colour color; reflexivity. Qed.

Lemma pano_led_write_trace (color duty_cycle : Z) (w : world) :
  trace (after (pano_led_write color duty_cycle) w)
  = trace w ++ pano_led_write_events color duty_cycle.
Proof.
  run_write. unfold pano_led_write_events.
  split_colour color; cbn [trace emit set_pin];
    rewrite <- !app_assoc; reflexivity.
Qed.

Lemma pano_led_write_globals (color duty_cycle : Z) (w : world) :
  globals (after (pano_led_write color duty_cycle) w) = globals w.
Proof. run_write. split_colour color; reflexivity. Qed.

Lemma pano_led_write_regs (color duty_cycle : Z) (w : world) :
  regs (after (pano_led_write color duty_cycle) w) = regs w.
Proof. run_write. split_colour color; reflexivity. Qed.

Lemma pano_led_write_pins (color duty_cycle : Z) (w : world) :
  let w' := after (pano_led_write color duty_cycle) w in
  let lit := lit_channels color in
  pin_out w' PANO_LED_R_PIN = channel_drive (fst (fst lit)) duty_cycle
  /\ pin_out w' PANO_LED_G_PIN = channel_drive (snd (fst lit)) duty_cycle
  /\ pin_out w' PANO_LED_B_PIN = channel_drive (snd lit) duty_cycle
  /\ pin_out w' HOUSE_LED_PIN = pin_out w HOUSE_LED_PIN
  /\ pin_out w' PIR_IN = pin_out w PIR_IN.
Proof.
  run_write. unfold lit_channels.
  split_colour color; cbn; repeat split; reflexivity.
Qed.

Lemma lit_channels_other (color : Z) :
  ~ In color pano_colors -> lit_channels color = (false, false, false).
Proof.
  intros Hc. unfold lit_channels.
  split_colour color; try reflexivity; exfalso; apply Hc;
    repeat match goal with
           | H : (_ =? _) = true |- _ => apply Z.eqb_eq in H
           end; subst color; cbn; tauto.
Qed.

(** C3.  For every colour value and every duty cycle, [pano_led_write]
    returns, having driven exactly the channels of that colour with the
    given duty (one channel for red, green, blue; two channels, both at the
    same duty, for brown, cyan, yellow) and having forced every other pano
    channel low; a value that is none of the six colours leaves all three
    channels low.  The house LED pin and the sensor pin are not touched. *)
Theorem pano_led_write_drives_colour_channels (color duty_cycle : Z) (w : world) :
  exists w',
    pano_led_write color duty_cycle w = Done tt w'
    /\ trace w' = trace w ++ pano_led_write_events color duty_cycle
    /\ (color = PANO_COLOR_RED ->
        pin_out w' PANO_LED_R_PIN = Pwm duty_cycle
        /\ pin_out w' PANO_LED_G_PIN = Digital LOW
        /\ pin_out w' PANO_LED_B_PIN = Digital LOW)
    /\ (color = PANO_COLOR_GREEN ->
        pin_out w' PANO_LED_G_PIN = Pwm duty_cycle
        /\ pin_out w' PANO_LED_R_PIN = Digital LOW
        /\ pin_out w' PANO_LED_B_PIN = Digital LOW)
    /\ (color = PANO_COLOR_BLUE ->
        pin_out w' PANO_LED_B_PIN = Pwm duty_cycle
        /\ pin_out w' PANO_LED_R_PIN = Digital LOW
        /\ pin_out w' PANO_LED_G_PIN = Digital LOW)
    /\ (color = PANO_COLOR_BROWN ->
        pin_out w' PANO_LED_R_PIN = Pwm duty_cycle
        /\ pin_out w' PANO_LED_G_PIN = Pwm duty_cycle
        /\ pin_out w' PANO_LED_B_PIN = Digital LOW)
    /\ (color = PANO_COLOR_CYAN ->
        pin_out w' PANO_LED_G_PIN = Pwm duty_cycle
        /\ pin_out w' PANO_LED_B_PIN = Pwm duty_cycle
        /\ pin_out w' PANO_LED_R_PIN = Digital LOW)
    /\ (color = PANO_COLOR_YELLOW ->
        pin_out w' PANO_LED_R_PIN = Pwm duty_cycle
        /\ pin_out w' PANO_LED_B_PIN = Pwm duty_cycle
        /\ pin_out w' PANO_LED_G_PIN = Digital LOW)
    /\ (~ In color pano_colors ->
        pin_out w' PANO_LED_R_PIN = Digital LOW
        /\ pin_out w' PANO_LED_G_PIN = Digital LOW
        /\ pin_out w' PANO_LED_B_PIN = Digital LOW)
    /\ pin_out w' HOUSE_LED_PIN = pin_out w HOUSE_LED_PIN
    /\ pin_out w' PIR_IN = pin_out w PIR_IN.
Proof.
  exists (after (pano_led_write color duty_cycle) w).
  split; [apply pano_led_write_done |].
  split; [apply pano_led_write_trace |].
  destruct (pano_led_write_pins color duty_cycle w)
    as (Hr & Hg & Hb & Hhouse & Hpir).
  cbv zeta in Hr, Hg, Hb.
  repeat match goal with |- _ /\ _ => split end; try assumption; intros Hc;
    rewrite ?Hr, ?Hg, ?Hb;
    try (subst color; repeat split; reflexivity);
    rewrite (lit_channels_other color Hc); repeat split; reflexivity.
Qed.

(** ** The two ramps of pano_led_pulse *)

Lemma in_int_true (z : Z) : -32768 <= z <= 32767 -> in_int z = true.
Proof. unfold in_int. intros. apply andb_true_intro. split; apply Z.leb_le; lia. Qed.

Lemma to_uint8_small (z : Z) : 0 <= z < 256 -> to_uint8 z = z.
Proof. intros. unfold to_uint8. apply Z.mod_small. assumption. Qed.

Lemma ramp_step_after (color new_duty : Z) (w : world) :
  after (ramp_step color new_duty) w
  = emit (EvDelay step_delay_ms)
         (after (pano_led_write color (to_uint8 new_duty)) w).
Proof.
  unfold after at 1. unfold ramp_step, bind.
  rewrite pano_led_write_done. reflexivity.
Qed.

Lemma ramp_step_trace (color new_duty : Z) (w : world) :
  trace (after (ramp_step color new_duty) w)
  = trace w ++ ramp_step_events color new_duty.
Proof.
  rewrite ramp_step_after. cbn [trace emit].
  rewrite pano_led_write_trace. unfold ramp_step_events.
  now rewrite app_assoc.
Qed.

Lemma ramp_step_globals (color new_duty : Z) (w : world) :
  globals (after (ramp_step color new_duty) w) = globals w.
Proof.
  rewrite ramp_step_after.
  rewrite <- (pano_led_write_globals color (to_uint8 new_duty) w).
  reflexivity.
Qed.

Lemma ramp_up_step (fuel : nat) (color inc new_duty : Z) (w : world) :
  ramp_up (S fuel) color inc new_duty w
  = if new_duty <=? PANO_LED_DUTY_CYCLE then
      if in_int (new_duty + inc)
      then ramp_up fuel color inc (new_duty + inc)
                   (after (ramp_step color new_duty) w)
      else Undefined (after (ramp_step color new_duty) w)
    else Done tt w.
Proof.
  cbn [ramp_up]. destruct (new_duty <=? PANO_LED_DUTY_CYCLE); [| reflexivity].
  rewrite ramp_step_after. unfold bind at 1. rewrite pano_led_write_done.
  unfold bind, delay, modify.
  destruct (in_int (new_duty + inc)); reflexivity.
Qed.

Lemma ramp_down_step (fuel : nat) (color inc new_duty : Z) (w : world) :
  ramp_down (S fuel) color inc new_duty w
  = if new_duty >=? 0 then
      if in_int (new_duty - inc)
      then ramp_down fuel color inc (new_duty - inc)
                     (after (ramp_step color new_duty) w)
      else Undefined (after (ramp_step color new_duty) w)
    else Done tt w.
Proof.
  cbn [ramp_down]. destruct (new_duty >=? 0); [| reflexivity].
  rewrite ramp_step_after. unfold bind at 1. rewrite pano_led_write_done.
  unfold bind, delay, modify.
  destruct (in_int (new_duty - inc)); reflexivity.
Qed.

Lemma ramp_events_cons (color d : Z) (ds : list Z) :
  ramp_events color (d :: ds) = ramp_step_events color d ++ ramp_events color ds.
Proof. reflexivity. Qed.

Lemma ramp_events_app (color : Z) (ds es : list Z) :
  ramp_events color (ds ++ es) = ramp_events color ds ++ ramp_events color es.
Proof. unfold ramp_events. apply flat_map_app. Qed.

Lemma duties_written_app (tr tr' : list event) :
  duties_written (tr ++ tr') = duties_written tr ++ duties_written tr'.
Proof.
  induction tr as [| e tr IH]; [reflexivity |].
  destruct e; cbn; rewrite IH; reflexivity.
Qed.

Lemma duties_written_ramp_step (color d : Z) :
  duties_written (ramp_step_events color d) = [to_uint8 d].
Proof.
  unfold ramp_step_events, pano_led_write_events.
  split_colour color; reflexivity.
Qed.

Lemma duties_written_ramp_events (color : Z) (ds : list Z) :
  duties_written (ramp_events color ds) = map to_uint8 ds.
Proof.
  induction ds as [| d ds IH]; [reflexivity |].
  rewrite ramp_events_cons, duties_written_app, duties_written_ramp_step, IH.
  reflexivity.
Qed.

(** A ramp whose increment is zero holds its first duty value for as long
    as it is run and never leaves its loop. *)
Lemma ramp_up_zero_increment (fuel : nat) (color new_duty : Z) (w : world) :
  new_duty <= PANO_LED_DUTY_CYCLE ->
  -32768 <= new_duty ->
  exists w',
    ramp_up fuel color 0 new_duty w = OutOfFuel w'
    /\ trace w' = trace w ++ ramp_events color (repeat new_duty fuel).
Proof.
  intros Hle Hlo. revert w.
  induction fuel as [| fuel IH]; intros w.
  - exists w. split; [reflexivity |]. cbn. now rewrite app_nil_r.
  - rewrite ramp_up_step.
    replace (new_duty <=? PANO_LED_DUTY_CYCLE) with true
      by (symmetry; apply Z.leb_le; assumption).
    rewrite Z.add_0_r, in_int_true by (unfold PANO_LED_DUTY_CYCLE in Hle; lia).
    destruct (IH (after (ramp_step color new_duty) w)) as (w' & Hrun & Htr).
    exists w'. split; [assumption |].
    rewrite Htr, ramp_step_trace. cbn [repeat].
    rewrite ramp_events_cons. now rewrite app_assoc.
Qed.

Lemma ramp_down_zero_increment (fuel : nat) (color new_duty : Z) (w : world) :
  0 <= new_duty ->
  new_duty <= 32767 ->
  exists w',
    ramp_down fuel color 0 new_duty w = OutOfFuel w'
    /\ trace w' = trace w ++ ramp_events color (repeat new_duty fuel).
Proof.
  intros Hle Hhi. revert w.
  induction fuel as [| fuel IH]; intros w.
  - exists w. split; [reflexivity |]. cbn. now rewrite app_nil_r.
  - rewrite ramp_down_step.
    replace (new_duty >=? 0) with true
      by (symmetry; apply Z.geb_le; assumption).
    rewrite Z.sub_0_r, in_int_true by lia.
    destruct (IH (after (ramp_step color new_duty) w)) as (w' & Hrun & Htr).
    exists w'. split; [assumption |].
    rewrite Htr, ramp_step_trace. cbn [repeat].
    rewrite ramp_events_cons. now rewrite app_assoc.
Qed.

(** A ramp that runs to completion in [n] iterations writes the first [n]
    terms of its arithmetic progression. *)
Lemma ramp_up_run (n : nat) :
  forall (fuel : nat) (color inc new_duty : Z) (w : world),
    0 <= inc -> 0 <= new_duty ->
    new_duty + Z.of_nat n * inc <= 32767 ->
    new_duty + (Z.of_nat n - 1) * inc <= PANO_LED_DUTY_CYCLE ->
    PANO_LED_DUTY_CYCLE < new_duty + Z.of_nat n * inc ->
    (n < fuel)%nat ->
    exists w',
      ramp_up fuel color inc new_duty w = Done tt w'
      /\ trace w' = trace w ++ ramp_events color (progression n new_duty inc)
      /\ globals w' = globals w.
Proof.
  unfold PANO_LED_DUTY_CYCLE.
  induction n as [| n IH]; intros fuel color inc nd w Hinc Hnd Hhi Hlast Hout Hfuel;
    (destruct fuel as [| fuel]; [lia |]); rewrite ramp_up_step;
    unfold PANO_LED_DUTY_CYCLE.
  - replace (nd <=? 70) with false by (symmetry; apply Z.leb_gt; lia).
    exists w. cbn. now rewrite app_nil_r.
  - assert (Hmul : 0 <= Z.of_nat n * inc) by (apply Z.mul_nonneg_nonneg; lia).
    rewrite Nat2Z.inj_succ in *.
    replace (nd <=? 70) with true by (symmetry; apply Z.leb_le; lia).
    rewrite in_int_true by lia.
    destruct (IH fuel color inc (nd + inc) (after (ramp_step color nd) w))
      as (w' & Hrun & Htr & Hg); try lia.
    exists w'. split; [assumption |]. split.
    + rewrite Htr, ramp_step_trace. cbn [progression].
      rewrite ramp_events_cons. now rewrite app_assoc.
    + rewrite Hg. apply ramp_step_globals.
Qed.

Lemma ramp_down_run (n : nat) :
  forall (fuel : nat) (color inc new_duty : Z) (w : world),
    0 <= inc -> new_duty <= 32767 ->
    -32768 <= new_duty - Z.of_nat n * inc ->
    0 <= new_duty - (Z.of_nat n - 1) * inc ->
    new_duty - Z.of_nat n * inc < 0 ->
    (n < fuel)%nat ->
    exists w',
      ramp_down fuel color inc new_duty w = Done tt w'
      /\ trace w' = trace w ++ ramp_events color (progression n new_duty (- inc))
      /\ globals w' = globals w.
Proof.
  induction n as [| n IH]; intros fuel color inc nd w Hinc Hnd Hlo Hlast Hout Hfuel;
    (destruct fuel as [| fuel]; [lia |]); rewrite ramp_down_step.
  - replace (nd >=? 0) with false by (symmetry; rewrite Z.geb_leb; apply Z.leb_gt; lia).
    exists w. cbn. now rewrite app_nil_r.
  - assert (Hmul : 0 <= Z.of_nat n * inc) by (apply Z.mul_nonneg_nonneg; lia).
    rewrite Nat2Z.inj_succ in *.
    replace (nd >=? 0) with true by (symmetry; apply Z.geb_le; lia).
    rewrite in_int_true by lia.
    destruct (IH fuel color inc (nd - inc) (after (ramp_step color nd) w))
      as (w' & Hrun & Htr & Hg); try lia.
    exists w'. split; [assumption |]. split.
    + rewrite Htr, ramp_step_trace. cbn [progression].
      rewrite ramp_events_cons. replace (nd + - inc) with (nd - inc) by lia.
      now rewrite app_assoc.
    + rewrite Hg. apply ramp_step_globals.
Qed.

(** With a non-negative increment the rising ramp only ever writes values
    between 0 and the maximum, however long it is run. *)
Lemma ramp_up_bounded (fuel : nat) :
  forall (color inc new_duty : Z) (w : world),
    0 <= inc -> 0 <= new_duty ->
    exists ds,
      trace (after (ramp_up fuel color inc new_duty) w)
      = trace w ++ ramp_events color ds
      /\ Forall duty_in_range ds.
Proof.
  induction fuel as [| fuel IH]; intros color inc nd w Hinc Hnd.
  - exists []. cbn. now rewrite app_nil_r.
  - unfold after. rewrite ramp_up_step.
    destruct (nd <=? PANO_LED_DUTY_CYCLE) eqn:Hle.
    + apply Z.leb_le in Hle.
      destruct (in_int (nd + inc)).
      * destruct (IH color inc (nd + inc) (after (ramp_step color nd) w))
          as (ds & Htr & Hds); try lia.
        exists (nd :: ds). split.
        -- unfold after in Htr at 1. rewrite Htr, ramp_step_trace.
           rewrite ramp_events_cons. now rewrite app_assoc.
        -- constructor; [split; lia | assumption].
      * exists [nd]. split.
        -- cbn [world_of]. rewrite ramp_step_trace. cbn. now rewrite app_nil_r.
        -- constructor; [split; lia | constructor].
    + exists []. cbn. now rewrite app_nil_r.
Qed.

Lemma ramp_down_bounded (fuel : nat) :
  forall (color inc new_duty : Z) (w : world),
    0 <= inc -> new_duty <= PANO_LED_DUTY_CYCLE ->
    exists ds,
      trace (after (ramp_down fuel color inc new_duty) w)
      = trace w ++ ramp_events color ds
      /\ Forall duty_in_range ds.
Proof.
  induction fuel as [| fuel IH]; intros color inc nd w Hinc Hnd.
  - exists []. cbn. now rewrite app_nil_r.
  - unfold after. rewrite ramp_down_step.
    destruct (nd >=? 0) eqn:Hge.
    + apply Z.geb_le in Hge.
      destruct (in_int (nd - inc)).
      * destruct (IH color inc (nd - inc) (after (ramp_step color nd) w))
          as (ds & Htr & Hds); try lia.
        exists (nd :: ds). split.
        -- unfold after in Htr at 1. rewrite Htr, ramp_step_trace.
           rewrite ramp_events_cons. now rewrite app_assoc.
        -- constructor; [split; lia | assumption].
      * exists [nd]. split.
        -- cbn [world_of]. rewrite ramp_step_trace. cbn. now rewrite app_nil_r.
        -- constructor; [split; lia | constructor].
    + exists []. cbn. now rewrite app_nil_r.
Qed.

(** With a positive increment either ramp leaves its loop. *)
Lemma ramp_up_terminates (fuel : nat) :
  forall (color inc new_duty : Z) (w : world),
    0 < inc <= PANO_LED_DUTY_CYCLE -> 0 <= new_duty ->
    (Z.to_nat (PANO_LED_DUTY_CYCLE + 1 - new_duty) < fuel)%nat ->
    ramp_up fuel color inc new_duty w
    = Done tt (after (ramp_up fuel color inc new_duty) w).
Proof.
  unfold PANO_LED_DUTY_CYCLE.
  induction fuel as [| fuel IH]; intros color inc nd w Hinc Hnd Hfuel; [lia |].
  unfold after. rewrite ramp_up_step. unfold PANO_LED_DUTY_CYCLE.
  destruct (nd <=? 70) eqn:Hle; [| reflexivity].
  apply Z.leb_le in Hle. rewrite in_int_true by lia.
  apply IH; lia.
Qed.

Lemma ramp_down_terminates (fuel : nat) :
  forall (color inc new_duty : Z) (w : world),
    0 < inc <= PANO_LED_DUTY_CYCLE -> new_duty <= PANO_LED_DUTY_CYCLE ->
    (Z.to_nat (new_duty + 1) < fuel)%nat ->
    ramp_down fuel color inc new_duty w
    = Done tt (after (ramp_down fuel color inc new_duty) w).
Proof.
  unfold PANO_LED_DUTY_CYCLE.
  induction fuel as [| fuel IH]; intros color inc nd w Hinc Hnd Hfuel; [lia |].
  unfold after. rewrite ramp_down_step.
  destruct (nd >=? 0) eqn:Hge; [| reflexivity].
  apply Z.geb_le in Hge. rewrite in_int_true by lia.
  apply IH; lia.
Qed.

(** ** pano_led_pulse *)

Lemma pano_led_pulse_eq (fuel : nat) (color on_ms off_ms : Z) (w : world) :
  pano_led_pulse fuel color on_ms off_ms w
  = match pulse_duty_increment on_ms with
    | None => Undefined w
    | Some inc_on =>
        match ramp_up fuel color inc_on 0 w with
        | Done _ w1 =>
            match pulse_duty_increment off_ms with
            | None => Undefined w1
            | Some inc_off =>
                ramp_down fuel color inc_off PANO_LED_DUTY_CYCLE w1
            end
        | Undefined w1 => Undefined w1
        | OutOfFuel w1 => OutOfFuel w1
        | Asleep w1 => Asleep w1
        end
    end.
Proof.
  unfold pano_led_pulse, bind, defined.
  destruct (pulse_duty_increment on_ms); [| reflexivity].
  unfold ret. destruct (ramp_up fuel color z 0 w); try reflexivity.
  destruct (pulse_duty_increment off_ms); reflexivity.
Qed.

Lemma to_int_small (z : Z) : -32768 <= z <= 32767 -> to_int z = z.
Proof. intros. unfold to_int. rewrite Z.mod_small; lia. Qed.

Lemma pulse_steps_small (d : Z) :
  0 <= d < 327680 -> pulse_steps d = d / step_delay_ms.
Proof.
  intros Hd. unfold pulse_steps, step_delay_ms. apply to_int_small.
  pose proof (Z.div_mod d 10 ltac:(lia)).
  pose proof (Z.mod_pos_bound d 10 ltac:(lia)). lia.
Qed.

Lemma pulse_steps_int (d : Z) : -32768 <= pulse_steps d <= 32767.
Proof.
  unfold pulse_steps, to_int.
  pose proof (Z.mod_pos_bound (d / step_delay_ms + 32768) 65536 ltac:(lia)). lia.
Qed.

Lemma pulse_steps_short (d : Z) : 0 <= d < 10 -> pulse_steps d = 0.
Proof.
  intros Hd. unfold pulse_steps, step_delay_ms.
  rewrite Z.div_small by lia. reflexivity.
Qed.

Lemma pulse_duty_increment_defined (d inc : Z) :
  is_uint32 d -> pulse_duty_increment d = Some inc -> 10 <= d.
Proof.
  intros Hd Hinc. destruct (Z_lt_le_dec d 10) as [Hlt | Hge]; [| assumption].
  unfold pulse_duty_increment in Hinc.
  rewrite pulse_steps_short in Hinc by (unfold is_uint32 in Hd; lia).
  discriminate.
Qed.

Lemma pulse_duty_increment_many_steps (d : Z) :
  PANO_LED_DUTY_CYCLE < pulse_steps d -> pulse_duty_increment d = Some 0.
Proof.
  unfold PANO_LED_DUTY_CYCLE. intros Hs.
  unfold pulse_duty_increment, int_div, PANO_LED_DUTY_CYCLE.
  replace (pulse_steps d =? 0) with false by (symmetry; apply Z.eqb_neq; lia).
  rewrite Z.quot_small by lia. reflexivity.
Qed.

(** A positive computed increment is at most the maximum duty. *)
Lemma pulse_duty_increment_le (d inc : Z) :
  pulse_duty_increment d = Some inc -> 0 < inc -> inc <= PANO_LED_DUTY_CYCLE.
Proof.
  unfold pulse_duty_increment, int_div, PANO_LED_DUTY_CYCLE.
  destruct (pulse_steps d =? 0) eqn:Hz; [discriminate |].
  apply Z.eqb_neq in Hz. intros [= <-] Hpos.
  destruct (Z_lt_le_dec (pulse_steps d) 0) as [Hneg | Hnn].
  - exfalso.
    pose proof (Z.quot_opp_r 70 (pulse_steps d) Hz) as Hopp.
    assert (0 <= 70 ÷ - pulse_steps d) by (apply Z.quot_pos; lia).
    lia.
  - rewrite Z.quot_div_nonneg by lia.
    apply Z.div_le_upper_bound; nia.
Qed.

Lemma pano_led_pulse_zero_on (fuel : nat) (color on_ms off_ms : Z) (w : world) :
  pulse_duty_increment on_ms = Some 0 ->
  exists w',
    pano_led_pulse fuel color on_ms off_ms w = OutOfFuel w'
    /\ trace w' = trace w ++ ramp_events color (repeat 0 fuel).
Proof.
  intros Hinc. rewrite pano_led_pulse_eq, Hinc.
  destruct (ramp_up_zero_increment fuel color 0 w) as (w' & Hrun & Htr);
    [unfold PANO_LED_DUTY_CYCLE; lia | lia |].
  exists w'. rewrite Hrun. split; [reflexivity | assumption].
Qed.

Lemma pano_led_pulse_zero_off (fuel : nat) (color on_ms off_ms : Z) (w w' : world) :
  pulse_duty_increment off_ms = Some 0 ->
  pano_led_pulse fuel color on_ms off_ms w <> Done tt w'.
Proof.
  intros Hinc. rewrite pano_led_pulse_eq, Hinc.
  destruct (pulse_duty_increment on_ms); [| discriminate].
  destruct (ramp_up fuel color z 0 w) as [[] w1 | | |]; try discriminate.
  destruct (ramp_down_zero_increment fuel color PANO_LED_DUTY_CYCLE w1)
    as (w2 & Hrun & _); [unfold PANO_LED_DUTY_CYCLE; lia .. |].
  rewrite Hrun. discriminate.
Qed.

Lemma pano_led_pulse_done_increments
      (fuel : nat) (color on_ms off_ms : Z) (w w' : world) :
  pano_led_pulse fuel color on_ms off_ms w = Done tt w' ->
  exists inc_on inc_off,
    pulse_duty_increment on_ms = Some inc_on
    /\ pulse_duty_increment off_ms = Some inc_off
    /\ inc_on <> 0 /\ inc_off <> 0.
Proof.
  intros Hdone.
  destruct (pulse_duty_increment on_ms) as [i1 |] eqn:H1;
    [| rewrite pano_led_pulse_eq, H1 in Hdone; discriminate].
  destruct (pulse_duty_increment off_ms) as [i2 |] eqn:H2;
    [| rewrite pano_led_pulse_eq, H1, H2 in Hdone;
       destruct (ramp_up fuel color i1 0 w); discriminate].
  exists i1, i2. repeat split; try reflexivity; intros ->.
  - destruct (pano_led_pulse_zero_on fuel color on_ms off_ms w H1)
      as (w1 & Hrun & _). congruence.
  - exact (pano_led_pulse_zero_off fuel color on_ms off_ms w w' H2 Hdone).
Qed.

Lemma map_to_uint8_in_range (ds : list Z) :
  Forall duty_in_range ds -> map to_uint8 ds = ds.
Proof.
  induction 1 as [| d ds Hd _ IH]; [reflexivity |].
  cbn. rewrite IH, to_uint8_small; [reflexivity |].
  unfold duty_in_range, PANO_LED_DUTY_CYCLE in Hd. lia.
Qed.

(** C1.  What [pano_led_pulse(color, 200, 200)] does, for any colour and
    from any state, given fuel for 25 loop tests per ramp: it returns after
    24 rising writes 0, 3, ..., 69 and then 24 falling writes 70, 67, ..., 1,
    each write followed by the 10 ms delay.  The step count is 20 and the
    increment 70 / 20 = 3, so each ramp takes 24 writes rather than 20 and
    the last duty value written is 1 rather than 0. *)
Theorem pano_led_pulse_200_200_writes (k : nat) (color : Z) (w : world) :
  let rising :=
    [0; 3; 6; 9; 12; 15; 18; 21; 24; 27; 30; 33;
     36; 39; 42; 45; 48; 51; 54; 57; 60; 63; 66; 69] in
  let falling :=
    [70; 67; 64; 61; 58; 55; 52; 49; 46; 43; 40; 37;
     34; 31; 28; 25; 22; 19; 16; 13; 10; 7; 4; 1] in
  pulse_steps 200 = 20
  /\ pulse_duty_increment 200 = Some 3
  /\ length rising = 24%nat
  /\ length falling = 24%nat
  /\ exists w',
      pano_led_pulse (25 + k) color 200 200 w = Done tt w'
      /\ trace w' = trace w ++ ramp_events color rising ++ ramp_events color falling
      /\ duties_written (trace w') = duties_written (trace w) ++ rising ++ falling
      /\ last (duties_written (trace w')) 0 = 1.
Proof.
  intros rising falling.
  repeat match goal with |- _ /\ _ => split; [reflexivity |] end.
  rewrite pano_led_pulse_eq.
  change (pulse_duty_increment 200) with (Some 3).
  destruct (ramp_up_run 24 (25 + k) color 3 0 w) as (w1 & Hup & Htr1 & _);
    try (unfold PANO_LED_DUTY_CYCLE; lia).
  destruct (ramp_down_run 24 (25 + k) color 3 PANO_LED_DUTY_CYCLE w1)
    as (w2 & Hdown & Htr2 & _); try (unfold PANO_LED_DUTY_CYCLE; lia).
  change (progression 24 0 3) with rising in Htr1.
  change (progression 24 PANO_LED_DUTY_CYCLE (- (3))) with falling in Htr2.
  exists w2. rewrite Hup.
  assert (Htr : trace w2
                = trace w ++ ramp_events color rising ++ ramp_events color falling)
    by (rewrite Htr2, Htr1; now rewrite app_assoc).
  assert (Hduties : duties_written (trace w2)
                    = duties_written (trace w) ++ rising ++ falling).
  { rewrite Htr, !duties_written_app, !duties_written_ramp_events.
    reflexivity. }
  repeat split; try assumption.
  rewrite Hduties.
  change (rising ++ falling) with (removelast (rising ++ falling) ++ [1]).
  rewrite app_assoc. apply last_last.
Qed.

(** The faster pulse of [loop], [pano_led_pulse(color, 100, 100)]: ten steps,
    increment 7, eleven writes per ramp, and the falling ramp does end at 0. *)
Lemma pano_led_pulse_100_100_writes (k : nat) (color : Z) (w : world) :
  exists w',
    pano_led_pulse (12 + k) color 100 100 w = Done tt w'
    /\ duties_written (trace w')
       = duties_written (trace w)
         ++ [0; 7; 14; 21; 28; 35; 42; 49; 56; 63; 70]
         ++ [70; 63; 56; 49; 42; 35; 28; 21; 14; 7; 0]
    /\ globals w' = globals w.
Proof.
  rewrite pano_led_pulse_eq.
  change (pulse_duty_increment 100) with (Some 7).
  destruct (ramp_up_run 11 (12 + k) color 7 0 w) as (w1 & Hup & Htr1 & Hg1);
    try (unfold PANO_LED_DUTY_CYCLE; lia).
  destruct (ramp_down_run 11 (12 + k) color 7 PANO_LED_DUTY_CYCLE w1)
    as (w2 & Hdown & Htr2 & Hg2); try (unfold PANO_LED_DUTY_CYCLE; lia).
  exists w2. rewrite Hup. repeat split; [assumption | | congruence].
  rewrite Htr2, Htr1, !duties_written_app, !duties_written_ramp_events.
  now rewrite app_assoc.
Qed.

(** C10.  Whenever both computed duty increments are positive, every duty
    value that [pano_led_pulse] passes to [pano_led_write] lies between 0
    and [PANO_LED_DUTY_CYCLE], on both ramps and for every bound on how long
    the call is observed. *)
Theorem pano_led_pulse_duty_within_maximum
        (fuel : nat) (color on_ms off_ms inc_on inc_off : Z) (w : world) :
  pulse_duty_increment on_ms = Some inc_on ->
  pulse_duty_increment off_ms = Some inc_off ->
  0 < inc_on -> 0 < inc_off ->
  exists evs,
    trace (after (pano_led_pulse fuel color on_ms off_ms) w) = trace w ++ evs
    /\ Forall duty_in_range (duties_written evs).
Proof.
  intros Hon Hoff Hpos_on Hpos_off.
  unfold after. rewrite pano_led_pulse_eq, Hon, Hoff.
  destruct (ramp_up_bounded fuel color inc_on 0 w) as (ds1 & Htr1 & Hds1);
    try lia.
  unfold after in Htr1.
  assert (Hone : Forall duty_in_range (duties_written (ramp_events color ds1)))
    by (rewrite duties_written_ramp_events, map_to_uint8_in_range; assumption).
  destruct (ramp_up fuel color inc_on 0 w) as [[] w1 | w1 | w1 | w1];
    cbn [world_of] in *; try (exists (ramp_events color ds1); now split).
  destruct (ramp_down_bounded fuel color inc_off PANO_LED_DUTY_CYCLE w1)
    as (ds2 & Htr2 & Hds2); try lia.
  exists (ramp_events color ds1 ++ ramp_events color ds2). split.
  - unfold after in Htr2. rewrite Htr2, Htr1. now rewrite app_assoc.
  - rewrite duties_written_app. apply Forall_app. split; [assumption |].
    rewrite duties_written_ramp_events, map_to_uint8_in_range; assumption.
Qed.

Lemma pano_led_pulse_duty_within_maximum_witness :
  exists evs,
    trace (after (pano_led_pulse 100 PANO_COLOR_BROWN 200 100) boot_world)
    = trace boot_world ++ evs
    /\ Forall duty_in_range (duties_written evs).
Proof.
  apply (pano_led_pulse_duty_within_maximum
           100 PANO_COLOR_BROWN 200 100 3 7 boot_world);
    [reflexivity | reflexivity | lia | lia].
Defined.

(** With both computed increments positive the call does return. *)
Lemma pano_led_pulse_terminates
      (k : nat) (color on_ms off_ms inc_on inc_off : Z) (w : world) :
  pulse_duty_increment on_ms = Some inc_on ->
  pulse_duty_increment off_ms = Some inc_off ->
  0 < inc_on -> 0 < inc_off ->
  exists w', pano_led_pulse (72 + k) color on_ms off_ms w = Done tt w'.
Proof.
  intros Hon Hoff Hpos_on Hpos_off.
  pose proof (pulse_duty_increment_le _ _ Hon Hpos_on).
  pose proof (pulse_duty_increment_le _ _ Hoff Hpos_off).
  rewrite pano_led_pulse_eq, Hon, Hoff.
  rewrite ramp_up_terminates by (unfold PANO_LED_DUTY_CYCLE in *; lia).
  rewrite ramp_down_terminates by (unfold PANO_LED_DUTY_CYCLE in *; lia).
  eexists. reflexivity.
Qed.

(** When the rising ramp completes and the falling increment is zero, the
    call holds the maximum duty for as long as it is run. *)
Lemma pano_led_pulse_zero_off_holds
      (k : nat) (color on_ms off_ms inc_on : Z) (w : world) :
  pulse_duty_increment on_ms = Some inc_on -> 0 < inc_on ->
  pulse_duty_increment off_ms = Some 0 ->
  exists w' ds,
    pano_led_pulse (72 + k) color on_ms off_ms w = OutOfFuel w'
    /\ trace w'
       = trace w ++ ramp_events color ds
         ++ ramp_events color (repeat PANO_LED_DUTY_CYCLE (72 + k)).
Proof.
  intros Hon Hpos Hoff.
  pose proof (pulse_duty_increment_le _ _ Hon Hpos).
  rewrite pano_led_pulse_eq, Hon, Hoff.
  rewrite ramp_up_terminates by (unfold PANO_LED_DUTY_CYCLE in *; lia).
  destruct (ramp_up_bounded (72 + k) color inc_on 0 w) as (ds & Htr1 & _);
    try lia.
  destruct (ramp_down_zero_increment
              (72 + k) color PANO_LED_DUTY_CYCLE
              (after (ramp_up (72 + k) color inc_on 0) w))
    as (w' & Hrun & Htr2); try (unfold PANO_LED_DUTY_CYCLE; lia).
  exists w', ds. split; [assumption |].
  rewrite Htr2, Htr1. now rewrite app_assoc.
Qed.

(** C4, at an input the claim covers: 705 ms is more than 700 ms, yet the
    step count is 70, the increment is 1 and the pulse returns; and for
    655360 ms the quotient 65536 does not fit the 16-bit [int], which holds
    a step count of 0. *)
Lemma pulse_increment_threshold_counterexample :
  (is_uint32 705 /\ 700 < 705
   /\ pulse_steps 705 = 70
   /\ pulse_duty_increment 705 = Some 1
   /\ exists w', pano_led_pulse 72 PANO_COLOR_RED 705 705 boot_world = Done tt w')
  /\ (is_uint32 655360
      /\ 655360 / step_delay_ms = 65536
      /\ pulse_steps 655360 = 0).
Proof.
  split.
  - split; [unfold is_uint32; lia |].
    split; [lia |].
    split; [reflexivity |].
    split; [reflexivity |].
    apply (pano_led_pulse_terminates 0 PANO_COLOR_RED 705 705 1 1 boot_world);
      [reflexivity | reflexivity | lia | lia].
  - split; [unfold is_uint32; lia |].
    split; reflexivity.
Qed.

(** C4, as the code has it.  For a duration [d] (a [uint32_t]): the step
    count is the truncated quotient [d / 10] kept in a 16-bit [int], hence
    equal to [d / 10] for [d < 327680]; for a positive step count the
    increment is the truncated quotient of 70 by it; for [d < 327680] the
    step count
    exceeds 70 exactly when [d >= 710]; whenever the step count exceeds 70
    the increment is zero, a rising ramp with that increment writes duty 0
    on every iteration and never leaves its loop, and a falling ramp with
    that increment writes duty 70 on every iteration and never leaves its
    loop; and [pano_led_pulse] returns only when both increments are defined
    and nonzero. *)
Theorem pulse_increment_truncates_to_zero (d : Z) (Hd : is_uint32 d) :
  (d < 327680 -> pulse_steps d = d / step_delay_ms)
  /\ (0 < pulse_steps d ->
      pulse_duty_increment d = Some (PANO_LED_DUTY_CYCLE / pulse_steps d))
  /\ (d < 327680 -> (PANO_LED_DUTY_CYCLE < pulse_steps d <-> 710 <= d))
  /\ (PANO_LED_DUTY_CYCLE < pulse_steps d ->
      pulse_duty_increment d = Some 0
      /\ (forall fuel color off_ms w,
             exists w',
               pano_led_pulse fuel color d off_ms w = OutOfFuel w'
               /\ trace w' = trace w ++ ramp_events color (repeat 0 fuel))
      /\ (forall k color on_ms inc_on w,
             pulse_duty_increment on_ms = Some inc_on -> 0 < inc_on ->
             exists w' ds,
               pano_led_pulse (72 + k) color on_ms d w = OutOfFuel w'
               /\ trace w'
                  = trace w ++ ramp_events color ds
                    ++ ramp_events color (repeat PANO_LED_DUTY_CYCLE (72 + k)))
      /\ (forall fuel color on_ms w w',
             pano_led_pulse fuel color on_ms d w <> Done tt w'))
  /\ (forall fuel color on_ms off_ms w w',
         pano_led_pulse fuel color on_ms off_ms w = Done tt w' ->
         exists inc_on inc_off,
           pulse_duty_increment on_ms = Some inc_on
           /\ pulse_duty_increment off_ms = Some inc_off
           /\ inc_on <> 0 /\ inc_off <> 0).
Proof.
  unfold is_uint32 in Hd.
  split; [intros; apply pulse_steps_small; lia |].
  split.
  { intros Hpos. unfold pulse_duty_increment, int_div.
    replace (pulse_steps d =? 0) with false by (symmetry; apply Z.eqb_neq; lia).
    rewrite Z.quot_div_nonneg by (unfold PANO_LED_DUTY_CYCLE; lia).
    reflexivity. }
  split.
  { intros Hsmall. rewrite pulse_steps_small by lia.
    unfold PANO_LED_DUTY_CYCLE, step_delay_ms.
    pose proof (Z.div_mod d 10 ltac:(lia)).
    pose proof (Z.mod_pos_bound d 10 ltac:(lia)). lia. }
  split.
  { intros Hmany.
    pose proof (pulse_duty_increment_many_steps d Hmany) as Hzero.
    split; [assumption |].
    split; [intros; now apply pano_led_pulse_zero_on |].
    split; [intros; now apply pano_led_pulse_zero_off_holds with (inc_on := inc_on) |].
    intros. now apply pano_led_pulse_zero_off. }
  intros fuel color on_ms off_ms w w'. apply pano_led_pulse_done_increments.
Qed.

Lemma pulse_increment_truncates_to_zero_witness :
  is_uint32 710
  /\ PANO_LED_DUTY_CYCLE < pulse_steps 710
  /\ pulse_duty_increment 710 = Some 0.
Proof.
  assert (H710 : is_uint32 710) by (unfold is_uint32; lia).
  assert (Hmany : PANO_LED_DUTY_CYCLE < pulse_steps 710) by reflexivity.
  split; [exact H710 |]. split; [exact Hmany |].
  exact (proj1 (proj1 (proj2 (proj2 (proj2
           (pulse_increment_truncates_to_zero 710 H710)))) Hmany)).
Defined.

(** C9.  Neither duty-increment computation guards its divisor.  For
    durations of type [uint32_t]: if both increments are defined then both
    durations are at least 10 ms; an on-duration below 10 ms gives a step
    count of 0 and the call divides by zero at once; an off-duration below
    10 ms gives a step count of 0, the call never returns normally, and it
    reaches the division by zero as soon as the rising ramp has completed;
    and such an input exists. *)
Theorem pulse_divides_by_zero_below_ten_ms
        (on_ms off_ms : Z) (Hon : is_uint32 on_ms) (Hoff : is_uint32 off_ms) :
  (forall inc_on inc_off,
      pulse_duty_increment on_ms = Some inc_on ->
      pulse_duty_increment off_ms = Some inc_off ->
      10 <= on_ms /\ 10 <= off_ms)
  /\ (on_ms < 10 ->
      pulse_steps on_ms = 0
      /\ pulse_duty_increment on_ms = None
      /\ forall fuel color w,
          pano_led_pulse fuel color on_ms off_ms w = Undefined w)
  /\ (off_ms < 10 ->
      pulse_steps off_ms = 0
      /\ pulse_duty_increment off_ms = None
      /\ (forall fuel color w w',
             pano_led_pulse fuel color on_ms off_ms w <> Done tt w')
      /\ (forall k color inc_on w,
             pulse_duty_increment on_ms = Some inc_on -> 0 < inc_on ->
             exists w',
               pano_led_pulse (72 + k) color on_ms off_ms w = Undefined w'))
  /\ (exists d,
         is_uint32 d /\ d < 10
         /\ pulse_steps d = 0
         /\ int_div PANO_LED_DUTY_CYCLE (pulse_steps d) = None).
Proof.
  assert (Hshort : forall d, is_uint32 d -> d < 10 ->
                             pulse_steps d = 0 /\ pulse_duty_increment d = None).
  { intros d Hd Hlt. unfold is_uint32 in Hd.
    unfold pulse_duty_increment. rewrite pulse_steps_short by lia.
    split; reflexivity. }
  split.
  { intros inc_on inc_off H1 H2. split;
      eapply pulse_duty_increment_defined; eassumption. }
  split.
  { intros Hlt. destruct (Hshort on_ms Hon Hlt) as (Hsteps & Hinc).
    repeat split; try assumption.
    intros. rewrite pano_led_pulse_eq, Hinc. reflexivity. }
  split.
  { intros Hlt. destruct (Hshort off_ms Hoff Hlt) as (Hsteps & Hinc).
    repeat match goal with |- _ /\ _ => split end; try assumption.
    - intros fuel color w w'. rewrite pano_led_pulse_eq, Hinc.
      destruct (pulse_duty_increment on_ms); [| discriminate].
      destruct (ramp_up fuel color z 0 w); discriminate.
    - intros k color inc_on w Hup Hpos.
      pose proof (pulse_duty_increment_le _ _ Hup Hpos).
      rewrite pano_led_pulse_eq, Hup, Hinc.
      rewrite ramp_up_terminates by (unfold PANO_LED_DUTY_CYCLE in *; lia).
      eexists. reflexivity. }
  exists 5. split; [unfold is_uint32; lia |].
  split; [lia |]. split; reflexivity.
Qed.

Lemma pulse_divides_by_zero_below_ten_ms_witness :
  is_uint32 5 /\ is_uint32 200 /\ 5 < 10
  /\ pulse_steps 5 = 0
  /\ pulse_duty_increment 5 = None
  /\ pano_led_pulse 30 PANO_COLOR_RED 5 200 boot_world = Undefined boot_world.
Proof.
  assert (H5 : is_uint32 5) by (unfold is_uint32; lia).
  assert (H200 : is_uint32 200) by (unfold is_uint32; lia).
  assert (Hlt : 5 < 10) by lia.
  destruct (proj1 (proj2 (pulse_divides_by_zero_below_ten_ms 5 200 H5 H200)) Hlt)
    as (Hsteps & Hinc & Hrun).
  split; [exact H5 |]. split; [exact H200 |]. split; [exact Hlt |].
  split; [exact Hsteps |]. split; [exact Hinc |].
  apply Hrun.
Defined.

(** ** The colour advance *)

Lemma ramp_up_globals (fuel : nat) :
  forall (color inc new_duty : Z) (w : world),
    globals (after (ramp_up fuel color inc new_duty) w) = globals w.
Proof.
  induction fuel as [| fuel IH]; intros color inc nd w; [reflexivity |].
  unfold after. rewrite ramp_up_step.
  destruct (nd <=? PANO_LED_DUTY_CYCLE); [| reflexivity].
  destruct (in_int (nd + inc)).
  - unfold after in IH. rewrite IH. apply ramp_step_globals.
  - apply ramp_step_globals.
Qed.

Lemma ramp_down_globals (fuel : nat) :
  forall (color inc new_duty : Z) (w : world),
    globals (after (ramp_down fuel color inc new_duty) w) = globals w.
Proof.
  induction fuel as [| fuel IH]; intros color inc nd w; [reflexivity |].
  unfold after. rewrite ramp_down_step.
  destruct (nd >=? 0); [| reflexivity].
  destruct (in_int (nd - inc)).
  - unfold after in IH. rewrite IH. apply ramp_step_globals.
  - apply ramp_step_globals.
Qed.

Lemma pano_led_pulse_globals (fuel : nat) (color on_ms off_ms : Z) (w : world) :
  globals (after (pano_led_pulse fuel color on_ms off_ms) w) = globals w.
Proof.
  unfold after. rewrite pano_led_pulse_eq.
  destruct (pulse_duty_increment on_ms) as [i1 |]; [| reflexivity].
  pose proof (ramp_up_globals fuel color i1 0 w) as Hup. unfold after in Hup.
  destruct (ramp_up fuel color i1 0 w) as [[] w1 | w1 | w1 | w1];
    cbn [world_of] in *; try assumption.
  destruct (pulse_duty_increment off_ms) as [i2 |]; [| assumption].
  rewrite <- Hup. apply ramp_down_globals.
Qed.

Lemma pulse_current_done (fuel : nat) (on_ms off_ms : Z) (w w' : world) :
  pulse_current fuel on_ms off_ms w = Done tt w' -> globals w' = globals w.
Proof.
  unfold pulse_current, bind, gets. intros Hrun.
  rewrite <- (pano_led_pulse_globals fuel (current_pano_color w) on_ms off_ms w).
  unfold after. rewrite Hrun. reflexivity.
Qed.

Lemma globals_colour (w w' : world) :
  globals w' = globals w -> current_pano_color w' = current_pano_color w.
Proof. unfold globals. intros [= _ H _ _ _]. exact H. Qed.

(** One pass of the animation moves the current colour one place on. *)
Lemma animate_advances_colour (fuel : nat) (w w' : world) :
  animate fuel w = Done tt w' ->
  current_pano_color w' = next_pano_color (current_pano_color w).
Proof.
  unfold animate. unfold bind at 1.
  destruct (pulse_current fuel 200 200 w) as [[] w1 | | |] eqn:H1; try discriminate.
  unfold bind at 1.
  destruct (pulse_current fuel 200 200 w1) as [[] w2 | | |] eqn:H2; try discriminate.
  unfold bind at 1.
  destruct (pulse_current fuel 200 200 w2) as [[] w3 | | |] eqn:H3; try discriminate.
  unfold bind at 1.
  destruct (pulse_current fuel 100 100 w3) as [[] w4 | | |] eqn:H4; try discriminate.
  unfold bind at 1.
  destruct (pulse_current fuel 100 100 w4) as [[] w5 | | |] eqn:H5; try discriminate.
  unfold bind, gets, modify. intros [= <-]. cbn [current_pano_color set_current_pano_color].
  apply pulse_current_done, globals_colour in H1, H2, H3, H4, H5.
  congruence.
Qed.

(** C7.  From each of the six colours, six applications of the colour
    advance of [loop] give the colour back; starting at red the advance
    visits red, green, blue, brown, cyan, yellow in that order and then
    red again; and a pass of the animation that returns has applied the
    advance exactly once to [current_pano_color]. *)
Theorem next_pano_color_six_cycle (c : Z) (Hc : In c pano_colors) :
  Nat.iter 6 next_pano_color c = c
  /\ map (fun n => Nat.iter n next_pano_color PANO_COLOR_RED) (seq 0 6)
     = [PANO_COLOR_RED; PANO_COLOR_GREEN; PANO_COLOR_BLUE;
        PANO_COLOR_BROWN; PANO_COLOR_CYAN; PANO_COLOR_YELLOW]
  /\ next_pano_color PANO_COLOR_YELLOW = PANO_COLOR_RED
  /\ forall fuel w w',
      animate fuel w = Done tt w' ->
      current_pano_color w' = next_pano_color (current_pano_color w).
Proof.
  split.
  - unfold pano_colors in Hc. cbn [In] in Hc.
    decompose [or] Hc; try contradiction; subst c; reflexivity.
  - split; [reflexivity |]. split; [reflexivity |].
    intros fuel w w'. apply animate_advances_colour.
Qed.

Lemma next_pano_color_six_cycle_witness :
  Nat.iter 6 next_pano_color PANO_COLOR_BROWN = PANO_COLOR_BROWN.
Proof.
  apply (next_pano_color_six_cycle PANO_COLOR_BROWN).
  unfold pano_colors. cbn. tauto.
Defined.

Lemma pulse_current_returns (k : nat) (on_ms off_ms inc_on inc_off : Z) (w : world) :
  pulse_duty_increment on_ms = Some inc_on ->
  pulse_duty_increment off_ms = Some inc_off ->
  0 < inc_on -> 0 < inc_off ->
  exists w', pulse_current (72 + k) on_ms off_ms w = Done tt w'.
Proof.
  intros. unfold pulse_current, bind, gets.
  eapply pano_led_pulse_terminates; eassumption.
Qed.

(** With fuel for 72 loop tests per ramp a pass of the animation returns. *)
Lemma animate_returns (k : nat) (w : world) :
  exists w', animate (72 + k) w = Done tt w'.
Proof.
  unfold animate.
  destruct (pulse_current_returns k 200 200 3 3 w) as (w1 & H1);
    [reflexivity | reflexivity | lia | lia |].
  destruct (pulse_current_returns k 200 200 3 3 w1) as (w2 & H2);
    [reflexivity | reflexivity | lia | lia |].
  destruct (pulse_current_returns k 200 200 3 3 w2) as (w3 & H3);
    [reflexivity | reflexivity | lia | lia |].
  destruct (pulse_current_returns k 100 100 7 7 w3) as (w4 & H4);
    [reflexivity | reflexivity | lia | lia |].
  destruct (pulse_current_returns k 100 100 7 7 w4) as (w5 & H5);
    [reflexivity | reflexivity | lia | lia |].
  unfold bind at 1. rewrite H1.
  unfold bind at 1. rewrite H2.
  unfold bind at 1. rewrite H3.
  unfold bind at 1. rewrite H4.
  unfold bind at 1. rewrite H5.
  eexists. reflexivity.
Qed.

(** ** house_led_pwm_start *)

Section PwmStart.

Variable env : environment.
Variable hdr : io_header.

Lemma wait_enable_ready_step (fuel : nat) (w : world) :
  wait_enable_ready env hdr (S fuel) w
  = let status := env_status env (reads w) in
    let w1 := emit (EvRegRead TCD0_STATUS status) (consume_input w) in
    if enable_ready hdr status
    then Done tt w1
    else wait_enable_ready env hdr fuel w1.
Proof.
  cbn [wait_enable_ready]. unfold bind, enable_ready. cbn [reg_read].
  destruct (Z.land (env_status env (reads w)) (TCD_ENRDY_bm hdr) =? 0);
    reflexivity.
Qed.

Lemma wait_enable_ready_runs (fuel : nat) :
  forall w : world,
    exists busy,
      Forall (fun s => enable_ready hdr s = false) busy
      /\ ((exists ready w',
              enable_ready hdr ready = true
              /\ wait_enable_ready env hdr fuel w = Done tt w'
              /\ trace w'
                 = trace w ++ map (EvRegRead TCD0_STATUS) busy
                   ++ [EvRegRead TCD0_STATUS ready]
              /\ regs w' = regs w)
          \/ (exists w',
                 wait_enable_ready env hdr fuel w = OutOfFuel w'
                 /\ trace w' = trace w ++ map (EvRegRead TCD0_STATUS) busy
                 /\ length busy = fuel
                 /\ regs w' = regs w)).
Proof.
  induction fuel as [| fuel IH]; intros w.
  - exists []. split; [constructor |]. right. exists w.
    cbn. rewrite app_nil_r. repeat split.
  - rewrite wait_enable_ready_step. cbv zeta.
    set (s := env_status env (reads w)).
    set (w1 := emit (EvRegRead TCD0_STATUS s) (consume_input w)).
    destruct (enable_ready hdr s) eqn:Hs.
    + exists []. split; [constructor |]. left. exists s, w1.
      repeat split. exact Hs.
    + destruct (IH w1) as (busy & Hbusy & Hcase).
      exists (s :: busy). split; [constructor; assumption |].
      assert (Hpre : forall tail,
                 trace w1 ++ tail
                 = trace w ++ EvRegRead TCD0_STATUS s :: tail).
      { intros tail. subst w1. cbn [trace emit consume_input].
        now rewrite <- app_assoc. }
      destruct Hcase as [(ready & w' & Hr & Hrun & Htr & Hregs)
                        | (w' & Hrun & Htr & Hlen & Hregs)].
      * left. exists ready, w'.
        split; [assumption |]. split; [assumption |].
        split; [| assumption].
        rewrite Htr, Hpre. reflexivity.
      * right. exists w'.
        split; [assumption |]. split; [| split; [| assumption]].
        -- rewrite Htr, Hpre. reflexivity.
        -- cbn. now rewrite Hlen.
Qed.

(** If the hardware reports ready at its [n]-th status read from now,
    fuel for more than [n] reads lets the wait return. *)
Lemma wait_enable_ready_returns (n : nat) :
  forall (fuel : nat) (w : world),
    enable_ready hdr (env_status env (n + reads w)) = true ->
    (n < fuel)%nat ->
    exists w', wait_enable_ready env hdr fuel w = Done tt w'.
Proof.
  induction n as [| n IH]; intros fuel w Hready Hfuel;
    (destruct fuel as [| fuel]; [lia |]);
    rewrite wait_enable_ready_step; cbv zeta.
  - cbn [Nat.add] in Hready. rewrite Hready. eexists. reflexivity.
  - destruct (enable_ready hdr (env_status env (reads w)));
      [eexists; reflexivity |].
    apply IH; [| lia].
    cbn [reads emit consume_input]. now rewrite Nat.add_succ_r.
Qed.

Lemma land_lor_same (a m : Z) : Z.land (Z.lor a m) m = m.
Proof.
  apply Z.bits_inj. intros n.
  rewrite Z.land_spec, Z.lor_spec.
  destruct (Z.testbit a n), (Z.testbit m n); reflexivity.
Qed.

Lemma house_led_pwm_start_eq (fuel : nat) (w : world) :
  house_led_pwm_start env hdr fuel w
  = match wait_enable_ready env hdr fuel (pwm_unlocked hdr w) with
    | Done _ w5 =>
        let enabled := Z.lor (regs w5 TCD0_CTRLA) (TCD_ENABLE_bm hdr) in
        Done tt (emit (EvRegWrite TCD0_CTRLA enabled)
                   (set_reg TCD0_CTRLA enabled
                      (emit (EvRegRead TCD0_CTRLA (regs w5 TCD0_CTRLA)) w5)))
    | Undefined w5 => Undefined w5
    | OutOfFuel w5 => OutOfFuel w5
    | Asleep w5 => Asleep w5
    end.
Proof.
  unfold house_led_pwm_start, bind, reg_write, modify, pwm_unlocked.
  cbn [reg_read].
  destruct (wait_enable_ready env hdr fuel _); reflexivity.
Qed.

(** C8.  Every run of [house_led_pwm_start], for every behaviour of the
    status register and every bound on the wait, performs its register
    accesses in one order: read and write back [TCD0.CTRLC] with the
    override bit cleared; write the unlock code to [CPU_CCP]; write the
    channel enable to [TCD0.FAULTCTRL]; read [TCD0.STATUS] repeatedly, each
    read before the last without the enable-ready bit; and, only after a
    read with the enable-ready bit, read [TCD0.CTRLA] and write it back
    with the enable bit set.  A run still waiting has not touched
    [TCD0.CTRLA]. *)
Theorem house_led_pwm_start_order (fuel : nat) (w : world) :
  let ctrlc := regs w TCD0_CTRLC in
  let ctrla := regs w TCD0_CTRLA in
  let unlock :=
    [EvRegRead TCD0_CTRLC ctrlc;
     EvRegWrite TCD0_CTRLC (Z.land ctrlc (Z.lnot (TCD_CMPOVR_bm hdr)));
     EvRegWrite CPU_CCP (CCP_IOREG_gc hdr);
     EvRegWrite TCD0_FAULTCTRL (TCD_CMPAEN_bm hdr)] in
  exists busy,
    Forall (fun s => enable_ready hdr s = false) busy
    /\ ((exists ready w',
            enable_ready hdr ready = true
            /\ house_led_pwm_start env hdr fuel w = Done tt w'
            /\ trace w'
               = trace w ++ unlock
                 ++ map (EvRegRead TCD0_STATUS) busy
                 ++ [EvRegRead TCD0_STATUS ready;
                     EvRegRead TCD0_CTRLA ctrla;
                     EvRegWrite TCD0_CTRLA (Z.lor ctrla (TCD_ENABLE_bm hdr))]
            /\ Z.land (regs w' TCD0_CTRLA) (TCD_ENABLE_bm hdr)
               = TCD_ENABLE_bm hdr)
        \/ (exists w',
               house_led_pwm_start env hdr fuel w = OutOfFuel w'
               /\ trace w'
                  = trace w ++ unlock ++ map (EvRegRead TCD0_STATUS) busy
               /\ length busy = fuel
               /\ regs w' TCD0_CTRLA = ctrla)).
Proof.
  intros ctrlc ctrla unlock.
  rewrite house_led_pwm_start_eq.
  set (w4 := pwm_unlocked hdr w).
  assert (Htr4 : trace w4 = trace w ++ unlock).
  { subst w4 unlock. unfold pwm_unlocked. cbn [trace emit set_reg].
    now rewrite <- !app_assoc. }
  assert (Hctrla : regs w4 TCD0_CTRLA = ctrla) by reflexivity.
  destruct (wait_enable_ready_runs fuel w4) as (busy & Hbusy & Hcase).
  exists busy. split; [assumption |].
  destruct Hcase as [(ready & w5 & Hr & Hrun & Htr & Hregs)
                    | (w5 & Hrun & Htr & Hlen & Hregs)]; rewrite Hrun.
  - left. exists ready. eexists. split; [assumption |].
    split; [reflexivity |].
    cbn [trace emit set_reg regs reg_eqb].
    rewrite Hregs, Hctrla. split; [| apply land_lor_same].
    rewrite Htr, Htr4. rewrite <- !app_assoc. reflexivity.
  - right. exists w5. split; [reflexivity |].
    split; [| split; [assumption | now rewrite Hregs]].
    rewrite Htr, Htr4. now rewrite <- app_assoc.
Qed.

(** If the hardware reports enable-ready at its [n]-th status read, fuel
    for more than [n] reads lets [house_led_pwm_start] return. *)
Lemma house_led_pwm_start_returns (n fuel : nat) (w : world) :
  enable_ready hdr (env_status env (n + reads w)) = true ->
  (n < fuel)%nat ->
  exists w', house_led_pwm_start env hdr fuel w = Done tt w'.
Proof.
  intros Hready Hfuel.
  rewrite house_led_pwm_start_eq.
  destruct (wait_enable_ready_returns n fuel (pwm_unlocked hdr w) Hready Hfuel)
    as (w5 & Hrun).
  rewrite Hrun. eexists. reflexivity.
Qed.

End PwmStart.

(** ** The timeout check and the sleep transition *)

Section PowerControl.

Variable env : environment.

Lemma power_control_eq (w : world) :
  power_control env w
  = if elapsed_ms env w >? SLEEP_TIMEOUT_MS then
      match env_pin env (S (reads w)) PIR_IN with
      | LOW => deep_sleep env (consume_input (consume_input w))
      | HIGH =>
          Done tt (set_start_ms
                     (to_uint32 (env_millis env (S (S (reads w)))))
                     (consume_input (consume_input (consume_input w))))
      end
    else Done tt (consume_input w).
Proof.
  unfold power_control, bind, millis, gets, digitalRead, elapsed_ms, modify.
  change (start_ms (consume_input w)) with (start_ms w).
  destruct (_ >? _); [| reflexivity].
  change (reads (consume_input w)) with (S (reads w)).
  destruct (env_pin env (S (reads w)) PIR_IN); reflexivity.
Qed.

Lemma loop_eq (fuel : nat) (w : world) :
  loop env fuel w
  = match power_control env w with
    | Done _ w' => animate fuel w'
    | Undefined w' => Undefined w'
    | OutOfFuel w' => OutOfFuel w'
    | Asleep w' => Asleep w'
    end.
Proof. reflexivity. Qed.

(** C5.  While no more than the timeout has elapsed since [start_ms], the
    timeout check of [loop] returns having changed nothing: [start_ms],
    the sleep controller, every pin output, every register, the current
    colour and the trace are as before. *)
Theorem power_control_within_timeout (w : world) :
  elapsed_ms env w <= SLEEP_TIMEOUT_MS ->
  exists w',
    power_control env w = Done tt w'
    /\ start_ms w' = start_ms w
    /\ sleep_enabled w' = sleep_enabled w
    /\ sleep_mode w' = sleep_mode w
    /\ pin_out w' = pin_out w
    /\ regs w' = regs w
    /\ current_pano_color w' = current_pano_color w
    /\ trace w' = trace w.
Proof.
  intros Hle. rewrite power_control_eq.
  replace (elapsed_ms env w >? SLEEP_TIMEOUT_MS) with false
    by (symmetry; rewrite Z.gtb_ltb; apply Z.ltb_ge; assumption).
  exists (consume_input w). repeat split.
Qed.

(** C6.  Once more than the timeout has elapsed and the sensor pin reads
    high, the check stores the current [millis()] reading in [start_ms]
    and returns without any sleep step: no pin is written, nothing is
    added to the trace, the sleep controller is untouched, and [loop]
    goes on with the animation from that state. *)
Theorem power_control_sensor_active (fuel : nat) (w : world) :
  SLEEP_TIMEOUT_MS < elapsed_ms env w ->
  env_pin env (S (reads w)) PIR_IN = HIGH ->
  exists w',
    power_control env w = Done tt w'
    /\ start_ms w' = to_uint32 (env_millis env (S (S (reads w))))
    /\ trace w' = trace w
    /\ pin_out w' = pin_out w
    /\ sleep_enabled w' = sleep_enabled w
    /\ sleep_mode w' = sleep_mode w
    /\ loop env fuel w = animate fuel w'.
Proof.
  intros Hgt Hpir. rewrite loop_eq, power_control_eq, Hpir.
  replace (elapsed_ms env w >? SLEEP_TIMEOUT_MS) with true
    by (symmetry; rewrite Z.gtb_ltb; apply Z.ltb_lt; assumption).
  eexists. split; [reflexivity |]. repeat split.
Qed.

Lemma deep_sleep_woken (w : world) :
  env_wake env (reads w) = true ->
  exists w',
    deep_sleep env w = Done tt w'
    /\ trace w'
       = trace w
         ++ [EvDigitalWrite PANO_LED_R_PIN LOW;
             EvDigitalWrite PANO_LED_G_PIN LOW;
             EvDigitalWrite PANO_LED_B_PIN LOW;
             EvDigitalWrite HOUSE_LED_PIN LOW;
             EvSleep SLEEP_MODE_STANDBY;
             EvWake;
             EvRegWrite PORTA_INTFLAGS 255]
    /\ pin_out w' PANO_LED_R_PIN = Digital LOW
    /\ pin_out w' PANO_LED_G_PIN = Digital LOW
    /\ pin_out w' PANO_LED_B_PIN = Digital LOW
    /\ pin_out w' HOUSE_LED_PIN = Digital LOW
    /\ start_ms w' = to_uint32 (env_millis env (2 + reads w))
    /\ sleep_enabled w' = false
    /\ current_pano_color w' = current_pano_color w.
Proof.
  intros Hwake.
  unfold deep_sleep, bind, digitalWrite, sleep_enable, set_sleep_mode,
    sleep_cpu, sleep_disable, PORTA_PORT_vect, reg_write, millis, modify.
  cbn [sleep_enabled sleep_mode reads emit set_pin set_sleep_enabled
       set_sleep_mode_field consume_input set_reg set_start_ms].
  rewrite Hwake.
  eexists. split; [reflexivity |].
  cbn [trace pin_out start_ms sleep_enabled current_pano_color reads emit
       set_pin set_reg set_sleep_enabled set_sleep_mode_field
       consume_input set_start_ms].
  split; [now rewrite <- !app_assoc |].
  repeat split.
Qed.

Lemma deep_sleep_not_woken (w : world) :
  env_wake env (reads w) = false ->
  exists w',
    deep_sleep env w = Asleep w'
    /\ trace w'
       = trace w
         ++ [EvDigitalWrite PANO_LED_R_PIN LOW;
             EvDigitalWrite PANO_LED_G_PIN LOW;
             EvDigitalWrite PANO_LED_B_PIN LOW;
             EvDigitalWrite HOUSE_LED_PIN LOW;
             EvSleep SLEEP_MODE_STANDBY]
    /\ start_ms w' = start_ms w.
Proof.
  intros Hwake.
  unfold deep_sleep, bind, digitalWrite, sleep_enable, set_sleep_mode,
    sleep_cpu, sleep_disable, PORTA_PORT_vect, reg_write, millis, modify.
  cbn [sleep_enabled sleep_mode reads emit set_pin set_sleep_enabled
       set_sleep_mode_field consume_input set_reg set_start_ms].
  rewrite Hwake.
  eexists. split; [reflexivity |].
  cbn [trace start_ms emit set_pin set_sleep_enabled set_sleep_mode_field].
  split; [now rewrite <- !app_assoc | reflexivity].
Qed.

(** C2.  Once more than the timeout has elapsed and the sensor pin reads
    low, the check writes low to the three pano channels and to the house
    LED, in that order, and halts the core in standby; when the sensor
    interrupt ends the sleep its handler runs, then [start_ms] is set to
    the [millis()] reading taken after the wake-up, sleep is disabled
    again, and [loop] goes on with the animation from that state. *)
Theorem power_control_sleeps_when_idle (fuel : nat) (w : world) :
  SLEEP_TIMEOUT_MS < elapsed_ms env w ->
  env_pin env (S (reads w)) PIR_IN = LOW ->
  env_wake env (S (S (reads w))) = true ->
  exists w',
    power_control env w = Done tt w'
    /\ trace w'
       = trace w
         ++ [EvDigitalWrite PANO_LED_R_PIN LOW;
             EvDigitalWrite PANO_LED_G_PIN LOW;
             EvDigitalWrite PANO_LED_B_PIN LOW;
             EvDigitalWrite HOUSE_LED_PIN LOW;
             EvSleep SLEEP_MODE_STANDBY;
             EvWake;
             EvRegWrite PORTA_INTFLAGS 255]
    /\ pin_out w' PANO_LED_R_PIN = Digital LOW
    /\ pin_out w' PANO_LED_G_PIN = Digital LOW
    /\ pin_out w' PANO_LED_B_PIN = Digital LOW
    /\ pin_out w' HOUSE_LED_PIN = Digital LOW
    /\ start_ms w' = to_uint32 (env_millis env (4 + reads w))
    /\ sleep_enabled w' = false
    /\ loop env fuel w = animate fuel w'.
Proof.
  intros Hgt Hpir Hwake. rewrite loop_eq, power_control_eq, Hpir.
  replace (elapsed_ms env w >? SLEEP_TIMEOUT_MS) with true
    by (symmetry; rewrite Z.gtb_ltb; apply Z.ltb_lt; assumption).
  destruct (deep_sleep_woken (consume_input (consume_input w)) Hwake)
    as (w' & Hrun & Htr & Hr & Hg & Hb & Hh & Hstart & Hen & _).
  exists w'. rewrite Hrun.
  repeat match goal with |- _ /\ _ => split end;
    try assumption; reflexivity.
Qed.

(** Without a wake-up the device stays in standby with its LEDs off. *)
Lemma power_control_stays_asleep (w : world) :
  SLEEP_TIMEOUT_MS < elapsed_ms env w ->
  env_pin env (S (reads w)) PIR_IN = LOW ->
  env_wake env (S (S (reads w))) = false ->
  exists w',
    power_control env w = Asleep w'
    /\ trace w'
       = trace w
         ++ [EvDigitalWrite PANO_LED_R_PIN LOW;
             EvDigitalWrite PANO_LED_G_PIN LOW;
             EvDigitalWrite PANO_LED_B_PIN LOW;
             EvDigitalWrite HOUSE_LED_PIN LOW;
             EvSleep SLEEP_MODE_STANDBY]
    /\ start_ms w' = start_ms w.
Proof.
  intros Hgt Hpir Hwake. rewrite power_control_eq, Hpir.
  replace (elapsed_ms env w >? SLEEP_TIMEOUT_MS) with true
    by (symmetry; rewrite Z.gtb_ltb; apply Z.ltb_lt; assumption).
  apply (deep_sleep_not_woken (consume_input (consume_input w)) Hwake).
Qed.

End PowerControl.

(** ** The timeout theorems at concrete states *)

Lemma power_control_within_timeout_witness :
  elapsed_ms quiet_room (set_start_ms 999000 boot_world) <= SLEEP_TIMEOUT_MS
  /\ exists w',
      power_control quiet_room (set_start_ms 999000 boot_world) = Done tt w'
      /\ start_ms w' = start_ms (set_start_ms 999000 boot_world)
      /\ trace w' = trace (set_start_ms 999000 boot_world).
Proof.
  assert (Hle : elapsed_ms quiet_room (set_start_ms 999000 boot_world)
                <= SLEEP_TIMEOUT_MS)
    by (vm_compute; discriminate).
  split; [exact Hle |].
  destruct (power_control_within_timeout
              quiet_room (set_start_ms 999000 boot_world) Hle)
    as (w' & Hrun & Hstart & _ & _ & _ & _ & _ & Htr).
  exists w'. split; [exact Hrun |]. split; [exact Hstart | exact Htr].
Defined.

Lemma power_control_sensor_active_witness :
  SLEEP_TIMEOUT_MS < elapsed_ms busy_room boot_world
  /\ env_pin busy_room (S (reads boot_world)) PIR_IN = HIGH
  /\ exists w',
      power_control busy_room boot_world = Done tt w'
      /\ start_ms w' = to_uint32 (env_millis busy_room (S (S (reads boot_world))))
      /\ trace w' = trace boot_world.
Proof.
  assert (Hgt : SLEEP_TIMEOUT_MS < elapsed_ms busy_room boot_world)
    by (vm_compute; reflexivity).
  assert (Hpir : env_pin busy_room (S (reads boot_world)) PIR_IN = HIGH)
    by reflexivity.
  split; [exact Hgt |]. split; [exact Hpir |].
  destruct (power_control_sensor_active busy_room 0 boot_world Hgt Hpir)
    as (w' & Hrun & Hstart & Htr & _).
  exists w'. split; [exact Hrun |]. split; [exact Hstart | exact Htr].
Defined.

Lemma power_control_sleeps_when_idle_witness :
  SLEEP_TIMEOUT_MS < elapsed_ms quiet_room boot_world
  /\ env_pin quiet_room (S (reads boot_world)) PIR_IN = LOW
  /\ env_wake quiet_room (S (S (reads boot_world))) = true
  /\ exists w',
      power_control quiet_room boot_world = Done tt w'
      /\ pin_out w' HOUSE_LED_PIN = Digital LOW
      /\ start_ms w' = to_uint32 (env_millis quiet_room (4 + reads boot_world))
      /\ sleep_enabled w' = false.
Proof.
  assert (Hgt : SLEEP_TIMEOUT_MS < elapsed_ms quiet_room boot_world)
    by (vm_compute; reflexivity).
  assert (Hpir : env_pin quiet_room (S (reads boot_world)) PIR_IN = LOW)
    by reflexivity.
  assert (Hwake : env_wake quiet_room (S (S (reads boot_world))) = true)
    by reflexivity.
  split; [exact Hgt |]. split; [exact Hpir |]. split; [exact Hwake |].
  destruct (power_control_sleeps_when_idle
              quiet_room 0 boot_world Hgt Hpir Hwake)
    as (w' & Hrun & _ & _ & _ & _ & Hhouse & Hstart & Hen & _).
  exists w'. split; [exact Hrun |]. split; [exact Hhouse |].
  split; [exact Hstart | exact Hen].
Defined.

(** [house_led_pwm_start] on the sample environment and the device masks:
    two status reads come back not ready, the third ready, and the timer is
    enabled after it. *)
Lemma house_led_pwm_start_sample :
  exists w',
    house_led_pwm_start quiet_room attiny_header 5 boot_world = Done tt w'
    /\ trace w'
       = [EvRegRead TCD0_CTRLC 0; EvRegWrite TCD0_CTRLC 0;
          EvRegWrite CPU_CCP 216; EvRegWrite TCD0_FAULTCTRL 16;
          EvRegRead TCD0_STATUS 0; EvRegRead TCD0_STATUS 0;
          EvRegRead TCD0_STATUS 1;
          EvRegRead TCD0_CTRLA 0; EvRegWrite TCD0_CTRLA 1].
Proof. eexists. split; vm_compute; reflexivity. Qed.

(** [PANO_COLOR_COUNT] is a value of the enumeration type but not a colour:
    it takes the [default] branch. *)
Example pano_led_write_count_all_low :
  exists w',
    pano_led_write PANO_COLOR_COUNT 70 boot_world = Done tt w'
    /\ trace w'
       = [EvPanoLedWrite 6 70;
          EvDigitalWrite PANO_LED_R_PIN LOW;
          EvDigitalWrite PANO_LED_G_PIN LOW;
          EvDigitalWrite PANO_LED_B_PIN LOW].
Proof. eexists. split; reflexivity. Qed.

(** * Further properties *)

(** ** Relations kept by composed routines *)

Lemma after_bind {A B : Type} (m : M A) (k : A -> M B) (w : world) :
  after (bind m k) w
  = match m w with
    | Done a w1 => after (k a) w1
    | _ => after m w
    end.
Proof. unfold after, bind. destruct (m w); reflexivity. Qed.

Section Keeps.

Variable R : world -> world -> Prop.
Hypothesis R_refl : forall w, R w w.
Hypothesis R_trans : forall w1 w2 w3, R w1 w2 -> R w2 w3 -> R w1 w3.

Lemma keeps_ret {A : Type} (a : A) : keeps R (ret a).
Proof. intros w. apply R_refl. Qed.

Lemma keeps_gets {A : Type} (f : world -> A) : keeps R (gets f).
Proof. intros w. apply R_refl. Qed.

Lemma keeps_undefined {A : Type} : keeps R (@undefined A).
Proof. intros w. apply R_refl. Qed.

Lemma keeps_out_of_fuel {A : Type} : keeps R (@out_of_fuel A).
Proof. intros w. apply R_refl. Qed.

Lemma keeps_defined (o : option Z) : keeps R (defined o).
Proof. destruct o; [apply keeps_ret | apply keeps_undefined]. Qed.

Lemma keeps_bind {A B : Type} (m : M A) (k : A -> M B) :
  keeps R m -> (forall a, keeps R (k a)) -> keeps R (bind m k).
Proof.
  intros Hm Hk w. rewrite after_bind.
  pose proof (Hm w) as Hw. unfold after in Hw.
  destruct (m w) as [a w1 | w1 | w1 | w1] eqn:Hrun;
    try (unfold after; rewrite Hrun; exact Hw).
  cbn [world_of] in Hw. eapply R_trans; [exact Hw | apply Hk].
Qed.

Hypothesis R_write : forall color duty_cycle, keeps R (pano_led_write color duty_cycle).
Hypothesis R_delay : forall ms, keeps R (delay ms).

Lemma keeps_ramp_up (fuel : nat) :
  forall color inc new_duty, keeps R (ramp_up fuel color inc new_duty).
Proof.
  induction fuel as [| fuel IH]; intros color inc nd; cbn [ramp_up].
  - apply keeps_out_of_fuel.
  - destruct (nd <=? PANO_LED_DUTY_CYCLE); [| apply keeps_ret].
    apply keeps_bind; [apply R_write |]. intros _.
    apply keeps_bind; [apply R_delay |]. intros _.
    destruct (in_int (nd + inc)); [apply IH | apply keeps_undefined].
Qed.

Lemma keeps_ramp_down (fuel : nat) :
  forall color inc new_duty, keeps R (ramp_down fuel color inc new_duty).
Proof.
  induction fuel as [| fuel IH]; intros color inc nd; cbn [ramp_down].
  - apply keeps_out_of_fuel.
  - destruct (nd >=? 0); [| apply keeps_ret].
    apply keeps_bind; [apply R_write |]. intros _.
    apply keeps_bind; [apply R_delay |]. intros _.
    destruct (in_int (nd - inc)); [apply IH | apply keeps_undefined].
Qed.

Lemma keeps_pano_led_pulse (fuel : nat) (color on_ms off_ms : Z) :
  keeps R (pano_led_pulse fuel color on_ms off_ms).
Proof.
  unfold pano_led_pulse.
  apply keeps_bind; [apply keeps_defined |]. intros inc_on.
  apply keeps_bind; [apply keeps_ramp_up |]. intros _.
  apply keeps_bind; [apply keeps_defined |]. intros inc_off.
  apply keeps_ramp_down.
Qed.

Lemma keeps_pulse_current (fuel : nat) (on_ms off_ms : Z) :
  keeps R (pulse_current fuel on_ms off_ms).
Proof.
  unfold pulse_current.
  apply keeps_bind; [apply keeps_gets |]. intros color.
  apply keeps_pano_led_pulse.
Qed.

End Keeps.

Lemma same_outside_pano_refl (w : world) : same_outside_pano w w.
Proof. reflexivity. Qed.

Lemma same_outside_pano_trans (w1 w2 w3 : world) :
  same_outside_pano w1 w2 -> same_outside_pano w2 w3 -> same_outside_pano w1 w3.
Proof. unfold same_outside_pano. congruence. Qed.

Lemma pano_led_write_outside (color duty_cycle : Z) :
  keeps same_outside_pano (pano_led_write color duty_cycle).
Proof.
  intros w. unfold same_outside_pano, outside_pano.
  rewrite pano_led_write_globals, pano_led_write_regs.
  destruct (pano_led_write_pins color duty_cycle w) as (_ & _ & _ & Hh & Hp).
  cbv zeta in Hh, Hp. rewrite Hh, Hp. reflexivity.
Qed.

Lemma delay_outside (ms : Z) : keeps same_outside_pano (delay ms).
Proof. intros w. reflexivity. Qed.

(** X5.  Whatever its arguments and its outcome, [pano_led_pulse] leaves
    [start_ms], the current colour, the sleep controller, every register,
    the house LED pin and the sensor pin as they were, and consumes no
    input: it acts on the three pano channels and the trace only. *)
Theorem pano_led_pulse_acts_on_pano_only
        (fuel : nat) (color on_ms off_ms : Z) (w : world) :
  let w' := after (pano_led_pulse fuel color on_ms off_ms) w in
  start_ms w' = start_ms w
  /\ current_pano_color w' = current_pano_color w
  /\ sleep_enabled w' = sleep_enabled w
  /\ sleep_mode w' = sleep_mode w
  /\ reads w' = reads w
  /\ regs w' = regs w
  /\ pin_out w' HOUSE_LED_PIN = pin_out w HOUSE_LED_PIN
  /\ pin_out w' PIR_IN = pin_out w PIR_IN.
Proof.
  intros w'.
  pose proof (keeps_pano_led_pulse same_outside_pano same_outside_pano_refl
                same_outside_pano_trans pano_led_write_outside delay_outside
                fuel color on_ms off_ms w) as H.
  fold w' in H. unfold same_outside_pano, outside_pano, globals in H.
  injection H as H1 H2 H3 H4 H5 H6 H7 H8.
  repeat match goal with |- _ /\ _ => split end; assumption.
Qed.

(** X7.  The three pano channels after a call of [pano_led_write] depend
    on its two arguments only: whatever was driven before (an earlier call
    with another colour included) is overwritten on all three channels. *)
Theorem pano_led_write_overwrites_channels
        (color duty_cycle color0 duty0 : Z) (w : world) :
  let once := after (pano_led_write color duty_cycle) w in
  let twice :=
    after (pano_led_write color0 duty0 ;; pano_led_write color duty_cycle) w in
  pin_out twice PANO_LED_R_PIN = pin_out once PANO_LED_R_PIN
  /\ pin_out twice PANO_LED_G_PIN = pin_out once PANO_LED_G_PIN
  /\ pin_out twice PANO_LED_B_PIN = pin_out once PANO_LED_B_PIN
  /\ pin_out twice HOUSE_LED_PIN = pin_out w HOUSE_LED_PIN.
Proof.
  intros once twice. subst once twice.
  rewrite after_bind, pano_led_write_done.
  destruct (pano_led_write_pins color duty_cycle w) as (Hr & Hg & Hb & _).
  destruct (pano_led_write_pins color duty_cycle
              (after (pano_led_write color0 duty0) w))
    as (Hr' & Hg' & Hb' & Hh' & _).
  destruct (pano_led_write_pins color0 duty0 w) as (_ & _ & _ & Hh0 & _).
  cbv zeta in *.
  rewrite Hr, Hg, Hb, Hr', Hg', Hb', Hh', Hh0. repeat split.
Qed.

(** ** pano_led_pulse in general *)

Lemma ramp_up_never_done (fuel : nat) :
  forall (color inc new_duty : Z) (w w' : world),
    inc <= 0 -> new_duty <= PANO_LED_DUTY_CYCLE ->
    ramp_up fuel color inc new_duty w <> Done tt w'.
Proof.
  induction fuel as [| fuel IH]; intros color inc nd w w' Hinc Hnd;
    [discriminate |].
  rewrite ramp_up_step.
  replace (nd <=? PANO_LED_DUTY_CYCLE) with true
    by (symmetry; apply Z.leb_le; assumption).
  destruct (in_int (nd + inc)); [apply IH; lia | discriminate].
Qed.

Lemma ramp_down_never_done (fuel : nat) :
  forall (color inc new_duty : Z) (w w' : world),
    inc <= 0 -> 0 <= new_duty ->
    ramp_down fuel color inc new_duty w <> Done tt w'.
Proof.
  induction fuel as [| fuel IH]; intros color inc nd w w' Hinc Hnd;
    [discriminate |].
  rewrite ramp_down_step.
  replace (nd >=? 0) with true by (symmetry; apply Z.geb_le; assumption).
  destruct (in_int (nd - inc)); [apply IH; lia | discriminate].
Qed.

Lemma pano_led_pulse_done_positive
      (fuel : nat) (color on_ms off_ms : Z) (w w' : world) :
  pano_led_pulse fuel color on_ms off_ms w = Done tt w' ->
  exists inc_on inc_off,
    pulse_duty_increment on_ms = Some inc_on
    /\ pulse_duty_increment off_ms = Some inc_off
    /\ 0 < inc_on /\ 0 < inc_off.
Proof.
  intros Hdone.
  destruct (pano_led_pulse_done_increments _ _ _ _ _ _ Hdone)
    as (i1 & i2 & H1 & H2 & _ & _).
  exists i1, i2. split; [assumption |]. split; [assumption |].
  rewrite pano_led_pulse_eq, H1, H2 in Hdone.
  destruct (Z_lt_le_dec 0 i1) as [Hp1 | Hn1].
  - split; [assumption |].
    destruct (Z_lt_le_dec 0 i2) as [Hp2 | Hn2]; [assumption | exfalso].
    destruct (ramp_up fuel color i1 0 w) as [[] w1 | | |]; try discriminate.
    revert Hdone. apply ramp_down_never_done;
      [assumption | unfold PANO_LED_DUTY_CYCLE; lia].
  - exfalso.
    destruct (ramp_up fuel color i1 0 w) as [[] w1 | | |] eqn:Hup;
      try discriminate.
    revert Hup. apply ramp_up_never_done;
      [assumption | unfold PANO_LED_DUTY_CYCLE; lia].
Qed.

(** X1.  [pano_led_pulse] returns, given enough fuel, exactly when both
    computed duty increments are defined and positive: a zero increment
    never leaves its loop, a negative one runs its counter away from the
    loop bound, and a zero step count divides by zero. *)
Theorem pano_led_pulse_returns_iff_positive_increments
        (color on_ms off_ms : Z) (w : world) :
  (exists fuel w', pano_led_pulse fuel color on_ms off_ms w = Done tt w')
  <-> (exists inc_on inc_off,
          pulse_duty_increment on_ms = Some inc_on
          /\ pulse_duty_increment off_ms = Some inc_off
          /\ 0 < inc_on /\ 0 < inc_off).
Proof.
  split.
  - intros (fuel & w' & Hdone).
    exact (pano_led_pulse_done_positive _ _ _ _ _ _ Hdone).
  - intros (i1 & i2 & H1 & H2 & Hp1 & Hp2).
    exists (72 + 0)%nat.
    exact (pano_led_pulse_terminates 0 color on_ms off_ms i1 i2 w H1 H2 Hp1 Hp2).
Qed.

Lemma pulse_duty_increment_positive_iff (d : Z) :
  0 <= d < 327680 ->
  (exists inc, pulse_duty_increment d = Some inc /\ 0 < inc) <-> 10 <= d <= 709.
Proof.
  intros Hd. unfold pulse_duty_increment, int_div.
  rewrite pulse_steps_small by assumption.
  unfold step_delay_ms, PANO_LED_DUTY_CYCLE.
  pose proof (Z.div_mod d 10 ltac:(lia)) as Hdm.
  pose proof (Z.mod_pos_bound d 10 ltac:(lia)) as Hmod.
  destruct (d / 10 =? 0) eqn:Hz.
  - apply Z.eqb_eq in Hz. split; [intros (i & Hi & _); discriminate | lia].
  - apply Z.eqb_neq in Hz.
    assert (Hsteps : 0 < d / 10) by lia.
    rewrite Z.quot_div_nonneg by lia.
    destruct (Z_le_gt_dec (d / 10) 70) as [Hle | Hgt].
    + split; [lia |]. intros _. eexists. split; [reflexivity |].
      apply Z.div_str_pos. lia.
    + split; [| lia]. intros (i & [= <-] & Hpos).
      rewrite Z.div_small in Hpos by lia. lia.
Qed.

(** X2.  In terms of the durations passed (both below 327680 ms, where
    the step counts fit an [int]): [pano_led_pulse] returns exactly when
    each duration is between 10 ms and 709 ms. *)
Theorem pano_led_pulse_returns_iff_durations
        (color on_ms off_ms : Z) (w : world) :
  0 <= on_ms < 327680 -> 0 <= off_ms < 327680 ->
  ((exists fuel w', pano_led_pulse fuel color on_ms off_ms w = Done tt w')
   <-> (10 <= on_ms <= 709 /\ 10 <= off_ms <= 709)).
Proof.
  intros Hon Hoff.
  pose proof (pulse_duty_increment_positive_iff on_ms Hon) as [Hon1 Hon2].
  pose proof (pulse_duty_increment_positive_iff off_ms Hoff) as [Hoff1 Hoff2].
  split.
  - intros (fuel & w' & Hdone).
    destruct (pano_led_pulse_done_positive _ _ _ _ _ _ Hdone)
      as (i1 & i2 & H1 & H2 & Hp1 & Hp2).
    split; [apply Hon1 | apply Hoff1]; eexists; split; eassumption.
  - intros (Hd1 & Hd2).
    destruct (Hon2 Hd1) as (i1 & H1 & Hp1).
    destruct (Hoff2 Hd2) as (i2 & H2 & Hp2).
    exists (72 + 0)%nat.
    exact (pano_led_pulse_terminates 0 color on_ms off_ms i1 i2 w H1 H2 Hp1 Hp2).
Qed.

Lemma pano_led_pulse_returns_iff_durations_witness :
  (exists fuel w',
      pano_led_pulse fuel PANO_COLOR_CYAN 709 10 boot_world = Done tt w')
  /\ ~ (exists fuel w',
           pano_led_pulse fuel PANO_COLOR_CYAN 710 10 boot_world = Done tt w').
Proof.
  split.
  - apply (pano_led_pulse_returns_iff_durations PANO_COLOR_CYAN 709 10 boot_world);
      lia.
  - intros H.
    apply (pano_led_pulse_returns_iff_durations PANO_COLOR_CYAN 710 10 boot_world)
      in H; lia.
Defined.

Lemma ramp_writes_spec (inc : Z) :
  0 < inc <= PANO_LED_DUTY_CYCLE ->
  let n := Z.of_nat (ramp_writes inc) in
  n = PANO_LED_DUTY_CYCLE / inc + 1
  /\ (n - 1) * inc = PANO_LED_DUTY_CYCLE - PANO_LED_DUTY_CYCLE mod inc
  /\ 0 <= PANO_LED_DUTY_CYCLE mod inc < inc
  /\ 2 <= n <= 71.
Proof.
  intros Hinc n. unfold ramp_writes, PANO_LED_DUTY_CYCLE in *.
  pose proof (Z.div_mod 70 inc ltac:(lia)) as Hdm.
  pose proof (Z.mod_pos_bound 70 inc ltac:(lia)) as Hmod.
  assert (Hq : 1 <= 70 / inc <= 70).
  { split; [apply Z.div_le_lower_bound; lia |].
    apply Z.div_le_upper_bound; nia. }
  assert (Hn : n = 70 / inc + 1) by (subst n; lia).
  repeat split; lia.
Qed.

Lemma progression_length (n : nat) (start step : Z) :
  length (progression n start step) = n.
Proof.
  revert start. induction n as [| n IH]; intros start; [reflexivity |].
  cbn. now rewrite IH.
Qed.

Lemma progression_last (n : nat) :
  forall start step d,
    last (progression (S n) start step) d = start + Z.of_nat n * step.
Proof.
  induction n as [| n IH]; intros start step d.
  - cbn. lia.
  - change (progression (S (S n)) start step)
      with (start :: progression (S n) (start + step) step).
    change (last (start :: progression (S n) (start + step) step) d)
      with (last (progression (S n) (start + step) step) d).
    rewrite IH. lia.
Qed.

Lemma progression_in_range (n : nat) :
  forall start step,
    duty_in_range start ->
    duty_in_range (start + (Z.of_nat n - 1) * step) ->
    Forall duty_in_range (progression n start step).
Proof.
  unfold duty_in_range, PANO_LED_DUTY_CYCLE.
  induction n as [| n IH]; intros start step Hs He; [constructor |].
  cbn [progression]. constructor; [assumption |].
  destruct n as [| n]; [constructor |].
  apply IH.
  - rewrite !Nat2Z.inj_succ in He.
    assert (0 <= Z.of_nat n) by lia. nia.
  - rewrite !Nat2Z.inj_succ in *. lia.
Qed.

Lemma last_app_nonempty {A : Type} (l1 l2 : list A) (d : A) :
  l2 <> [] -> last (l1 ++ l2) d = last l2 d.
Proof.
  intros Hne. induction l1 as [| a l1 IH]; [reflexivity |].
  cbn [app]. destruct (l1 ++ l2) eqn:Happ.
  - apply app_eq_nil in Happ. tauto.
  - rewrite <- IH. reflexivity.
Qed.

Lemma delay_total_app (tr tr' : list event) :
  delay_total (tr ++ tr') = delay_total tr + delay_total tr'.
Proof.
  induction tr as [| e tr IH]; [reflexivity |].
  destruct e; cbn; rewrite IH; lia.
Qed.

Lemma delay_total_ramp_step (color d : Z) :
  delay_total (ramp_step_events color d) = step_delay_ms.
Proof.
  unfold ramp_step_events, pano_led_write_events.
  split_colour color; reflexivity.
Qed.

Lemma delay_total_ramp_events (color : Z) (ds : list Z) :
  delay_total (ramp_events color ds) = step_delay_ms * Z.of_nat (length ds).
Proof.
  induction ds as [| d ds IH]; [reflexivity |].
  rewrite ramp_events_cons, delay_total_app, delay_total_ramp_step, IH.
  cbn [length]. lia.
Qed.

(** With both increments positive the call returns, having visited the
    two arithmetic progressions. *)
Lemma pano_led_pulse_run
      (k : nat) (color on_ms off_ms inc_on inc_off : Z) (w : world) :
  pulse_duty_increment on_ms = Some inc_on ->
  pulse_duty_increment off_ms = Some inc_off ->
  0 < inc_on -> 0 < inc_off ->
  exists w',
    pano_led_pulse (72 + k) color on_ms off_ms w = Done tt w'
    /\ trace w'
       = trace w
         ++ ramp_events color (progression (ramp_writes inc_on) 0 inc_on)
         ++ ramp_events color
              (progression (ramp_writes inc_off) PANO_LED_DUTY_CYCLE (- inc_off))
    /\ globals w' = globals w.
Proof.
  intros Hon Hoff Hp1 Hp2.
  pose proof (pulse_duty_increment_le _ _ Hon Hp1) as Hle1.
  pose proof (pulse_duty_increment_le _ _ Hoff Hp2) as Hle2.
  destruct (ramp_writes_spec inc_on ltac:(lia)) as (Hn1 & Hm1 & Hr1 & Hb1).
  destruct (ramp_writes_spec inc_off ltac:(lia)) as (Hn2 & Hm2 & Hr2 & Hb2).
  cbv zeta in *. unfold PANO_LED_DUTY_CYCLE in *.
  rewrite pano_led_pulse_eq, Hon, Hoff.
  destruct (ramp_up_run (ramp_writes inc_on) (72 + k) color inc_on 0 w)
    as (w1 & Hup & Htr1 & Hg1); unfold PANO_LED_DUTY_CYCLE; try nia.
  destruct (ramp_down_run (ramp_writes inc_off) (72 + k) color inc_off 70 w1)
    as (w2 & Hdown & Htr2 & Hg2); try nia.
  exists w2. rewrite Hup. split; [assumption |]. split.
  - rewrite Htr2, Htr1. now rewrite app_assoc.
  - congruence.
Qed.

(** X3.  For durations whose increments [inc_on], [inc_off] are positive,
    [pano_led_pulse] returns after [70 / inc_on + 1] rising writes
    0, inc_on, 2 inc_on, ... and [70 / inc_off + 1] falling writes
    70, 70 - inc_off, ...; the highest duty reached is
    [70 - 70 mod inc_on] and the last duty written is [70 mod inc_off], so
    the ramp tops out at 70 or ends at 0 only when the increment divides
    70. *)
Theorem pano_led_pulse_progressions
        (k : nat) (color on_ms off_ms inc_on inc_off : Z) (w : world) :
  pulse_duty_increment on_ms = Some inc_on ->
  pulse_duty_increment off_ms = Some inc_off ->
  0 < inc_on -> 0 < inc_off ->
  let rising := progression (ramp_writes inc_on) 0 inc_on in
  let falling :=
    progression (ramp_writes inc_off) PANO_LED_DUTY_CYCLE (- inc_off) in
  exists w',
    pano_led_pulse (72 + k) color on_ms off_ms w = Done tt w'
    /\ duties_written (trace w')
       = duties_written (trace w) ++ rising ++ falling
    /\ Z.of_nat (length rising) = PANO_LED_DUTY_CYCLE / inc_on + 1
    /\ Z.of_nat (length falling) = PANO_LED_DUTY_CYCLE / inc_off + 1
    /\ last rising 0 = PANO_LED_DUTY_CYCLE - PANO_LED_DUTY_CYCLE mod inc_on
    /\ last (duties_written (trace w')) 0 = PANO_LED_DUTY_CYCLE mod inc_off.
Proof.
  intros Hon Hoff Hp1 Hp2 rising falling.
  pose proof (pulse_duty_increment_le _ _ Hon Hp1) as Hle1.
  pose proof (pulse_duty_increment_le _ _ Hoff Hp2) as Hle2.
  destruct (ramp_writes_spec inc_on ltac:(lia)) as (Hn1 & Hm1 & Hr1 & Hb1).
  destruct (ramp_writes_spec inc_off ltac:(lia)) as (Hn2 & Hm2 & Hr2 & Hb2).
  cbv zeta in *.
  destruct (pano_led_pulse_run k color on_ms off_ms inc_on inc_off w
              Hon Hoff Hp1 Hp2) as (w' & Hrun & Htr & _).
  fold rising falling in Htr.
  assert (Hlast1 : last rising 0
                   = PANO_LED_DUTY_CYCLE - PANO_LED_DUTY_CYCLE mod inc_on).
  { subst rising. destruct (ramp_writes inc_on) as [| n] eqn:Hn; [lia |].
    rewrite progression_last. lia. }
  assert (Hlast2 : last falling 0 = PANO_LED_DUTY_CYCLE mod inc_off).
  { subst falling. destruct (ramp_writes inc_off) as [| n] eqn:Hn; [lia |].
    rewrite progression_last. lia. }
  assert (Hin1 : Forall duty_in_range rising).
  { apply progression_in_range; unfold duty_in_range, PANO_LED_DUTY_CYCLE in *;
      lia. }
  assert (Hin2 : Forall duty_in_range falling).
  { apply progression_in_range; unfold duty_in_range, PANO_LED_DUTY_CYCLE in *;
      lia. }
  assert (Hduties : duties_written (trace w')
                    = duties_written (trace w) ++ rising ++ falling).
  { rewrite Htr, !duties_written_app, !duties_written_ramp_events.
    now rewrite !map_to_uint8_in_range. }
  exists w'. split; [assumption |]. split; [assumption |].
  split; [subst rising; now rewrite progression_length |].
  split; [subst falling; now rewrite progression_length |].
  split; [assumption |].
  rewrite Hduties, app_assoc, last_app_nonempty; [assumption |].
  subst falling. destruct (ramp_writes inc_off); [lia | discriminate].
Qed.

Lemma pano_led_pulse_progressions_witness :
  exists w',
    pano_led_pulse 72 PANO_COLOR_GREEN 300 150 boot_world = Done tt w'
    /\ last (duties_written (trace w')) 0 = PANO_LED_DUTY_CYCLE mod 4.
Proof.
  destruct (pano_led_pulse_progressions
              0 PANO_COLOR_GREEN 300 150 2 4 boot_world)
    as (w' & Hrun & _ & _ & _ & _ & Hlast);
    [reflexivity | reflexivity | lia | lia |].
  exists w'. split; [exact Hrun | exact Hlast].
Defined.



(** ** The interrupt handler, the sleep transition and whole iterations *)

Section WholeLoop.

Variable env : environment.

(** X6.  The pin interrupt handler acknowledges every port flag, stores
    the [millis()] reading in [start_ms] and changes nothing else; a timeout
    check that follows it, with no more than the timeout between the two
    clock readings, returns without sleeping and leaves that [start_ms]. *)
Theorem timeout_check_after_interrupt (w : world) :
  to_uint32 (to_uint32 (env_millis env (S (reads w)))
             - to_uint32 (env_millis env (reads w))) <= SLEEP_TIMEOUT_MS ->
  exists w1 w2,
    PORTA_PORT_vect env w = Done tt w1
    /\ trace w1 = trace w ++ [EvRegWrite PORTA_INTFLAGS 255]
    /\ regs w1 PORTA_INTFLAGS = 255
    /\ (forall r, r <> PORTA_INTFLAGS -> regs w1 r = regs w r)
    /\ pin_out w1 = pin_out w
    /\ current_pano_color w1 = current_pano_color w
    /\ sleep_enabled w1 = sleep_enabled w
    /\ start_ms w1 = to_uint32 (env_millis env (reads w))
    /\ power_control env w1 = Done tt w2
    /\ start_ms w2 = start_ms w1
    /\ trace w2 = trace w1.
Proof.
  intros Hle.
  unfold PORTA_PORT_vect, bind, reg_write, millis, modify.
  cbn [reads emit set_reg].
  eexists. eexists. split; [reflexivity |].
  cbn [trace regs pin_out current_pano_color sleep_enabled start_ms
       set_start_ms consume_input emit set_reg reg_eqb].
  repeat match goal with |- _ /\ _ => split end; try reflexivity.
  - intros r Hr. destruct r; try reflexivity. congruence.
  - rewrite power_control_eq.
    match goal with
    | |- context [elapsed_ms env ?x >? _] =>
        replace (elapsed_ms env x >? SLEEP_TIMEOUT_MS) with false
          by (symmetry; rewrite Z.gtb_ltb; apply Z.ltb_ge; exact Hle)
    end.
    reflexivity.
  - reflexivity.
  - reflexivity.
Qed.

Lemma deep_sleep_after (w : world) :
  let w' := after (deep_sleep env) w in
  pin_out w' PANO_LED_R_PIN = Digital LOW
  /\ pin_out w' PANO_LED_G_PIN = Digital LOW
  /\ pin_out w' PANO_LED_B_PIN = Digital LOW
  /\ pin_out w' HOUSE_LED_PIN = Digital LOW
  /\ (forall r, r <> PORTA_INTFLAGS -> regs w' r = regs w r)
  /\ current_pano_color w' = current_pano_color w.
Proof.
  unfold after, deep_sleep, bind, digitalWrite, sleep_enable, set_sleep_mode,
    sleep_cpu, sleep_disable, PORTA_PORT_vect, reg_write, millis, modify.
  cbn [sleep_enabled sleep_mode reads emit set_pin set_sleep_enabled
       set_sleep_mode_field consume_input set_reg set_start_ms].
  destruct (env_wake env (reads w)); cbn;
    repeat match goal with |- _ /\ _ => split end; try reflexivity;
    intros r Hr; destruct r; try reflexivity; congruence.
Qed.

(** X8.  If the timeout has passed, the sensor pin reads low and no
    interrupt ever arrives, [loop] never gets to its animation: the device
    is left halted in standby, the four LED pins written low, [start_ms]
    and the colour as they were, nothing else in the trace. *)
Theorem loop_halts_without_interrupt (fuel : nat) (w : world) :
  SLEEP_TIMEOUT_MS < elapsed_ms env w ->
  env_pin env (S (reads w)) PIR_IN = LOW ->
  env_wake env (S (S (reads w))) = false ->
  exists w',
    loop env fuel w = Asleep w'
    /\ trace w'
       = trace w
         ++ [EvDigitalWrite PANO_LED_R_PIN LOW;
             EvDigitalWrite PANO_LED_G_PIN LOW;
             EvDigitalWrite PANO_LED_B_PIN LOW;
             EvDigitalWrite HOUSE_LED_PIN LOW;
             EvSleep SLEEP_MODE_STANDBY]
    /\ pin_out w' HOUSE_LED_PIN = Digital LOW
    /\ pin_out w' PANO_LED_R_PIN = Digital LOW
    /\ pin_out w' PANO_LED_G_PIN = Digital LOW
    /\ pin_out w' PANO_LED_B_PIN = Digital LOW
    /\ sleep_enabled w' = true
    /\ start_ms w' = start_ms w
    /\ current_pano_color w' = current_pano_color w.
Proof.
  intros Hgt Hpir Hwake. rewrite loop_eq, power_control_eq, Hpir.
  replace (elapsed_ms env w >? SLEEP_TIMEOUT_MS) with true
    by (symmetry; rewrite Z.gtb_ltb; apply Z.ltb_lt; assumption).
  unfold deep_sleep, bind, digitalWrite, sleep_enable, set_sleep_mode,
    sleep_cpu, modify.
  cbn [sleep_enabled sleep_mode reads emit set_pin set_sleep_enabled
       set_sleep_mode_field consume_input].
  rewrite Hwake. eexists. split; [reflexivity |].
  cbn [trace pin_out sleep_enabled start_ms current_pano_color emit set_pin
       set_sleep_enabled set_sleep_mode_field consume_input].
  split; [now rewrite <- !app_assoc |].
  repeat split.
Qed.

(** *** Relations every iteration keeps *)

Lemma same_colour_refl (w : world) : same_colour w w.
Proof. reflexivity. Qed.

Lemma same_colour_trans (w1 w2 w3 : world) :
  same_colour w1 w2 -> same_colour w2 w3 -> same_colour w1 w3.
Proof. unfold same_colour. congruence. Qed.

Lemma house_stays_low_refl (w : world) : house_stays_low w w.
Proof. split; [tauto | reflexivity]. Qed.

Lemma house_stays_low_trans (w1 w2 w3 : world) :
  house_stays_low w1 w2 -> house_stays_low w2 w3 -> house_stays_low w1 w3.
Proof.
  intros (Hp12 & Hr12) (Hp23 & Hr23). split; [tauto |].
  intros r Hr. rewrite Hr23, Hr12; trivial.
Qed.


Lemma outside_pano_house (w w' : world) :
  same_outside_pano w w' -> house_stays_low w w'.
Proof.
  unfold same_outside_pano, outside_pano, globals.
  intros [= _ _ _ _ _ Hregs Hhouse _]. split.
  - intros Hlow. now rewrite Hhouse.
  - intros r _. now rewrite Hregs.
Qed.

Lemma pulse_current_outside (fuel : nat) (on_ms off_ms : Z) :
  keeps same_outside_pano (pulse_current fuel on_ms off_ms).
Proof.
  apply keeps_pulse_current;
    [exact same_outside_pano_refl | exact same_outside_pano_trans
     | exact pano_led_write_outside | exact delay_outside].
Qed.

Lemma power_control_same_colour : keeps same_colour (power_control env).
Proof.
  intros w. unfold after. rewrite power_control_eq.
  destruct (elapsed_ms env w >? SLEEP_TIMEOUT_MS);
    [| unfold same_colour; reflexivity].
  destruct (env_pin env (S (reads w)) PIR_IN);
    [| unfold same_colour; reflexivity].
  apply (deep_sleep_after (consume_input (consume_input w))).
Qed.

Lemma power_control_house : keeps house_stays_low (power_control env).
Proof.
  intros w. unfold after. rewrite power_control_eq.
  destruct (elapsed_ms env w >? SLEEP_TIMEOUT_MS);
    [| split; [intros H; exact H | reflexivity]].
  destruct (env_pin env (S (reads w)) PIR_IN);
    [| split; [intros H; exact H | reflexivity]].
  destruct (deep_sleep_after (consume_input (consume_input w)))
    as (_ & _ & _ & Hh & Hr & _).
  split; [intros _; exact Hh | exact Hr].
Qed.

Lemma animate_house (fuel : nat) : keeps house_stays_low (animate fuel).
Proof.
  assert (Hpulse : forall on_ms off_ms,
             keeps house_stays_low (pulse_current fuel on_ms off_ms)).
  { intros on_ms off_ms w. apply outside_pano_house, pulse_current_outside. }
  unfold animate.
  repeat (apply keeps_bind;
          [exact house_stays_low_trans | apply Hpulse | intros _]).
  apply keeps_bind; [exact house_stays_low_trans | |].
  - intros w. apply house_stays_low_refl.
  - intros color w. split; [intros H; exact H | reflexivity].
Qed.

Lemma loop_house (fuel : nat) : keeps house_stays_low (loop env fuel).
Proof.
  unfold loop. apply keeps_bind;
    [exact house_stays_low_trans | apply power_control_house
     | intros _; apply animate_house].
Qed.

(** X9.  Over any number of iterations of [loop], whatever their
    outcome, the house LED pin is only ever written low and no register but
    the port's interrupt flags is written: once the sleep transition has
    put the pin low, nothing in [loop] drives it again or restarts the
    timer. *)
Theorem house_led_stays_low (fuel n : nat) (w : world) :
  pin_out w HOUSE_LED_PIN = Digital LOW ->
  let w' := after (loops env fuel n) w in
  pin_out w' HOUSE_LED_PIN = Digital LOW
  /\ regs w' TCD0_CTRLA = regs w TCD0_CTRLA
  /\ regs w' TCD0_CTRLC = regs w TCD0_CTRLC
  /\ regs w' TCD0_FAULTCTRL = regs w TCD0_FAULTCTRL
  /\ regs w' CPU_CCP = regs w CPU_CCP.
Proof.
  intros Hlow w'.
  assert (Hkeeps : keeps house_stays_low (loops env fuel n)).
  { clear. induction n as [| n IH]; cbn [loops].
    - intros w. apply house_stays_low_refl.
    - apply keeps_bind;
        [exact house_stays_low_trans | apply loop_house | intros _; exact IH]. }
  destruct (Hkeeps w) as (Hpin & Hregs). fold w' in Hpin, Hregs.
  split; [exact (Hpin Hlow) |].
  repeat split; apply Hregs; discriminate.
Qed.

End WholeLoop.

Lemma timeout_check_after_interrupt_witness :
  exists w1 w2,
    PORTA_PORT_vect quiet_room boot_world = Done tt w1
    /\ power_control quiet_room w1 = Done tt w2
    /\ start_ms w2 = start_ms w1.
Proof.
  destruct (timeout_check_after_interrupt quiet_room boot_world)
    as (w1 & w2 & Hisr & _ & _ & _ & _ & _ & _ & _ & Hcheck & Hstart & _);
    [vm_compute; discriminate |].
  exists w1, w2. split; [exact Hisr |]. split; [exact Hcheck | exact Hstart].
Defined.

Lemma loop_halts_without_interrupt_witness :
  exists w',
    loop dead_room 30 boot_world = Asleep w'
    /\ pin_out w' HOUSE_LED_PIN = Digital LOW.
Proof.
  destruct (loop_halts_without_interrupt dead_room 30 boot_world)
    as (w' & Hrun & _ & Hhouse & _);
    [vm_compute; reflexivity | reflexivity | reflexivity |].
  exists w'. split; [exact Hrun | exact Hhouse].
Defined.

Lemma house_led_stays_low_witness :
  pin_out (after (loops quiet_room 30 3) boot_world) HOUSE_LED_PIN
  = Digital LOW.
Proof.
  apply (house_led_stays_low quiet_room 30 3 boot_world). reflexivity.
Defined.

(** ** The colour over many iterations *)


Lemma next_pano_color_period (c : Z) (m : nat) :
  In c pano_colors -> Nat.iter (6 * m) next_pano_color c = c.
Proof.
  intros Hc. induction m as [| m IH]; [reflexivity |].
  replace (6 * S m)%nat with (6 + 6 * m)%nat by lia.
  rewrite Nat.iter_add, IH.
  unfold pano_colors in Hc. cbn [In] in Hc.
  decompose [or] Hc; try contradiction; subst c; reflexivity.
Qed.





Section Colours.

Variable env : environment.




Lemma loop_done_colour (fuel : nat) (w w' : world) :
  loop env fuel w = Done tt w' ->
  current_pano_color w' = next_pano_color (current_pano_color w).
Proof.
  rewrite loop_eq. intros Hrun.
  pose proof (power_control_same_colour env w) as Hpc.
  unfold after, same_colour in Hpc.
  destruct (power_control env w) as [[] w1 | | |]; try discriminate.
  cbn [world_of] in Hpc. rewrite <- Hpc.
  exact (animate_advances_colour fuel w1 w' Hrun).
Qed.


(** X11.  [n] iterations of [loop] that all return have advanced the
    colour [n] times, also across a sleep; from one of the six colours a
    multiple of six iterations brings the colour back. *)
Theorem loops_advance_colour (fuel n : nat) (w w' : world) :
  loops env fuel n w = Done tt w' ->
  current_pano_color w'
  = Nat.iter n next_pano_color (current_pano_color w)
  /\ (In (current_pano_color w) pano_colors ->
      (exists m, n = (6 * m)%nat) ->
      current_pano_color w' = current_pano_color w).
Proof.
  intros Hrun.
  assert (Hiter : current_pano_color w'
                  = Nat.iter n next_pano_color (current_pano_color w)).
  { revert w Hrun. induction n as [| n IH]; intros w Hrun.
    - injection Hrun as <-. reflexivity.
    - cbn [loops] in Hrun. unfold bind in Hrun.
      destruct (loop env fuel w) as [[] w1 | | |] eqn:Hloop; try discriminate.
      rewrite (IH w1 Hrun), (loop_done_colour fuel w w1 Hloop).
      symmetry. apply Nat.iter_succ_r. }
  split; [exact Hiter |].
  intros Hvalid (m & ->). rewrite Hiter.
  now apply next_pano_color_period.
Qed.

End Colours.


Lemma loops_advance_colour_witness :
  loops quiet_room 25 2 boot_world
  = Done tt (after (loops quiet_room 25 2) boot_world)
  /\ current_pano_color (after (loops quiet_room 25 2) boot_world)
     = Nat.iter 2 next_pano_color (current_pano_color boot_world).
Proof.
  assert (Hrun : loops quiet_room 25 2 boot_world
                 = Done tt (after (loops quiet_room 25 2) boot_world))
    by (vm_compute; reflexivity).
  split; [exact Hrun |].
  exact (proj1 (loops_advance_colour quiet_room 25 2 boot_world _ Hrun)).
Defined.

(** ** What one iteration costs *)

Lemma pulse_current_cost
      (k : nat) (on_ms off_ms inc_on inc_off : Z) (w : world) :
  pulse_duty_increment on_ms = Some inc_on ->
  pulse_duty_increment off_ms = Some inc_off ->
  0 < inc_on -> 0 < inc_off ->
  exists w',
    pulse_current (72 + k) on_ms off_ms w = Done tt w'
    /\ globals w' = globals w
    /\ delay_total (trace w')
       = delay_total (trace w)
         + step_delay_ms * Z.of_nat (ramp_writes inc_on + ramp_writes inc_off)
    /\ length (duties_written (trace w'))
       = (length (duties_written (trace w))
          + (ramp_writes inc_on + ramp_writes inc_off))%nat.
Proof.
  intros Hon Hoff Hp1 Hp2.
  destruct (pano_led_pulse_run k (current_pano_color w) on_ms off_ms
              inc_on inc_off w Hon Hoff Hp1 Hp2) as (w' & Hrun & Htr & Hg).
  exists w'. split; [exact Hrun |]. split; [exact Hg |].
  rewrite Htr. split.
  - rewrite !delay_total_app, !delay_total_ramp_events, !progression_length.
    lia.
  - rewrite !duties_written_app, !duties_written_ramp_events.
    rewrite !length_app, !length_map, !progression_length. lia.
Qed.

Lemma globals_start_ms (w w' : world) :
  globals w' = globals w -> start_ms w' = start_ms w.
Proof. unfold globals. intros [= H _ _ _ _]. exact H. Qed.

(** X12.  An iteration of [loop] that finds the timeout not yet passed
    returns after 188 calls of [pano_led_write] and 1880 ms spent in
    [delay] (three pulses of 48 steps and two of 22), with the colour
    advanced once and [start_ms] untouched: the timeout is looked at once
    every 1.88 s of animation. *)
Theorem loop_iteration_cost (env : environment) (k : nat) (w : world) :
  elapsed_ms env w <= SLEEP_TIMEOUT_MS ->
  exists w',
    loop env (72 + k) w = Done tt w'
    /\ delay_total (trace w') = delay_total (trace w) + 1880
    /\ length (duties_written (trace w'))
       = (length (duties_written (trace w)) + 188)%nat
    /\ start_ms w' = start_ms w
    /\ current_pano_color w' = next_pano_color (current_pano_color w).
Proof.
  intros Hle. rewrite loop_eq, power_control_eq.
  replace (elapsed_ms env w >? SLEEP_TIMEOUT_MS) with false
    by (symmetry; rewrite Z.gtb_ltb; apply Z.ltb_ge; assumption).
  set (w0 := consume_input w).
  destruct (pulse_current_cost k 200 200 3 3 w0) as (w1 & H1 & G1 & D1 & L1);
    [reflexivity | reflexivity | lia | lia |].
  destruct (pulse_current_cost k 200 200 3 3 w1) as (w2 & H2 & G2 & D2 & L2);
    [reflexivity | reflexivity | lia | lia |].
  destruct (pulse_current_cost k 200 200 3 3 w2) as (w3 & H3 & G3 & D3 & L3);
    [reflexivity | reflexivity | lia | lia |].
  destruct (pulse_current_cost k 100 100 7 7 w3) as (w4 & H4 & G4 & D4 & L4);
    [reflexivity | reflexivity | lia | lia |].
  destruct (pulse_current_cost k 100 100 7 7 w4) as (w5 & H5 & G5 & D5 & L5);
    [reflexivity | reflexivity | lia | lia |].
  change (ramp_writes 3) with 24%nat in *.
  change (ramp_writes 7) with 11%nat in *.
  unfold step_delay_ms in *.
  unfold animate.
  unfold bind at 1. rewrite H1.
  unfold bind at 1. rewrite H2.
  unfold bind at 1. rewrite H3.
  unfold bind at 1. rewrite H4.
  unfold bind at 1. rewrite H5.
  unfold bind, gets, modify. eexists. split; [reflexivity |].
  cbn [trace start_ms current_pano_color set_current_pano_color].
  assert (G : globals w5 = globals w0) by congruence.
  change (trace w0) with (trace w) in *.
  split; [lia |]. split; [lia |].
  split.
  - apply globals_start_ms in G. exact G.
  - apply globals_colour in G. now rewrite G.
Qed.

Lemma loop_iteration_cost_witness :
  exists w',
    loop quiet_room 72 (set_start_ms 999000 boot_world) = Done tt w'
    /\ delay_total (trace w') = 1880.
Proof.
  destruct (loop_iteration_cost quiet_room 0 (set_start_ms 999000 boot_world))
    as (w' & Hrun & Hdelay & _); [vm_compute; discriminate |].
  exists w'. split; [exact Hrun | exact Hdelay].
Defined.

(** ** house_led_pwm_start: when it returns and what it leaves *)

Section PwmStartRuns.

Variable env : environment.
Variable hdr : io_header.

Lemma wait_enable_ready_never (fuel : nat) :
  forall w : world,
    (forall n, enable_ready hdr (env_status env n) = false) ->
    exists w',
      wait_enable_ready env hdr fuel w = OutOfFuel w'
      /\ regs w' = regs w
      /\ reads w' = (reads w + fuel)%nat.
Proof.
  induction fuel as [| fuel IH]; intros w Hnever.
  - exists w. repeat split. cbn. lia.
  - rewrite wait_enable_ready_step. cbv zeta. rewrite Hnever.
    destruct (IH (emit (EvRegRead TCD0_STATUS (env_status env (reads w)))
                    (consume_input w)) Hnever) as (w' & Hrun & Hregs & Hreads).
    exists w'. split; [exact Hrun |]. split; [exact Hregs |].
    rewrite Hreads. cbn [reads emit consume_input]. lia.
Qed.

Lemma wait_enable_ready_first (n : nat) :
  forall (fuel : nat) (w : world),
    (forall i, (i < n)%nat ->
               enable_ready hdr (env_status env (i + reads w)) = false) ->
    enable_ready hdr (env_status env (n + reads w)) = true ->
    (n < fuel)%nat ->
    exists w',
      wait_enable_ready env hdr fuel w = Done tt w'
      /\ trace w'
         = trace w
           ++ map (fun i => EvRegRead TCD0_STATUS (env_status env (i + reads w)))
                  (seq 0 (S n))
      /\ regs w' = regs w
      /\ reads w' = (reads w + S n)%nat
      /\ pin_out w' = pin_out w
      /\ start_ms w' = start_ms w
      /\ current_pano_color w' = current_pano_color w.
Proof.
  induction n as [| n IH]; intros fuel w Hbusy Hready Hfuel;
    (destruct fuel as [| fuel]; [lia |]);
    rewrite wait_enable_ready_step; cbv zeta.
  - cbn [Nat.add] in Hready. rewrite Hready.
    eexists. split; [reflexivity |].
    cbn [trace regs reads pin_out start_ms current_pano_color
         emit consume_input seq map Nat.add].
    repeat match goal with |- _ /\ _ => split end; try reflexivity. lia.
  - pose proof (Hbusy 0%nat ltac:(lia)) as Hfirst.
    cbn [Nat.add] in Hfirst. rewrite Hfirst.
    set (w1 := emit (EvRegRead TCD0_STATUS (env_status env (reads w)))
                    (consume_input w)).
    assert (Hshift : forall i, (i + reads w1 = S i + reads w)%nat)
      by (intros i; subst w1; cbn [reads emit consume_input]; lia).
    destruct (IH fuel w1)
      as (w' & Hrun & Htr & Hregs & Hreads & Hpins & Hstart & Hcol).
    + intros i Hi. rewrite Hshift. apply Hbusy. lia.
    + now rewrite Hshift.
    + lia.
    + exists w'. split; [exact Hrun |].
      repeat match goal with |- _ /\ _ => split end;
        try assumption.
      * rewrite Htr. subst w1. cbn [trace emit consume_input].
        rewrite <- app_assoc. f_equal.
        change (seq 0 (S (S n))) with (0%nat :: seq 1 (S n)).
        cbn [map app Nat.add]. f_equal.
        rewrite <- seq_shift, map_map.
        apply map_ext. intros i. do 2 f_equal.
        cbn [reads emit consume_input]. lia.
      * rewrite Hreads. subst w1. cbn [reads emit consume_input]. lia.
Qed.

End PwmStartRuns.

Lemma land_lnot_same (a m : Z) : Z.land (Z.land a (Z.lnot m)) m = 0.
Proof.
  apply Z.bits_inj'. intros n Hn.
  rewrite !Z.land_spec, Z.lnot_spec, Z.bits_0 by assumption.
  destruct (Z.testbit a n), (Z.testbit m n); reflexivity.
Qed.

Section PwmStartOutcome.

Variable env : environment.
Variable hdr : io_header.

(** X13.  If the status register never shows the enable-ready bit,
    [house_led_pwm_start] never returns: for every bound it is still
    polling, having read the status that many times, with the output
    channel already enabled in [TCD0.FAULTCTRL] and [TCD0.CTRLA] not
    written, so the timer is never started. *)
Theorem house_led_pwm_start_never_ready (fuel : nat) (w : world) :
  (forall n, enable_ready hdr (env_status env n) = false) ->
  exists w',
    house_led_pwm_start env hdr fuel w = OutOfFuel w'
    /\ reads w' = (reads w + fuel)%nat
    /\ regs w' TCD0_FAULTCTRL = TCD_CMPAEN_bm hdr
    /\ regs w' TCD0_CTRLA = regs w TCD0_CTRLA.
Proof.
  intros Hnever. rewrite house_led_pwm_start_eq.
  destruct (wait_enable_ready_never env hdr fuel (pwm_unlocked hdr w) Hnever)
    as (w' & Hrun & Hregs & Hreads).
  exists w'. rewrite Hrun. split; [reflexivity |].
  split; [exact Hreads |]. rewrite Hregs. split; reflexivity.
Qed.

(** X14.  If the enable-ready bit first shows at the [n]-th status read
    from now and the bound allows more than [n] reads,
    [house_led_pwm_start] returns after exactly [n + 1] status reads, having
    cleared only the override bit of [TCD0.CTRLC], written the unlock code
    and the channel enable, and set the enable bit of [TCD0.CTRLA] on top
    of its old value; the interrupt flags, the pins, [start_ms] and the
    colour are as before. *)
Theorem house_led_pwm_start_effect (n fuel : nat) (w : world) :
  (forall i, (i < n)%nat ->
             enable_ready hdr (env_status env (i + reads w)) = false) ->
  enable_ready hdr (env_status env (n + reads w)) = true ->
  (n < fuel)%nat ->
  exists w',
    house_led_pwm_start env hdr fuel w = Done tt w'
    /\ reads w' = (reads w + S n)%nat
    /\ regs w' TCD0_CTRLC
       = Z.land (regs w TCD0_CTRLC) (Z.lnot (TCD_CMPOVR_bm hdr))
    /\ Z.land (regs w' TCD0_CTRLC) (TCD_CMPOVR_bm hdr) = 0
    /\ regs w' CPU_CCP = CCP_IOREG_gc hdr
    /\ regs w' TCD0_FAULTCTRL = TCD_CMPAEN_bm hdr
    /\ regs w' TCD0_CTRLA = Z.lor (regs w TCD0_CTRLA) (TCD_ENABLE_bm hdr)
    /\ regs w' PORTA_INTFLAGS = regs w PORTA_INTFLAGS
    /\ pin_out w' = pin_out w
    /\ start_ms w' = start_ms w
    /\ current_pano_color w' = current_pano_color w.
Proof.
  intros Hbusy Hready Hfuel. rewrite house_led_pwm_start_eq.
  destruct (wait_enable_ready_first env hdr n fuel (pwm_unlocked hdr w))
    as (w5 & Hrun & _ & Hregs & Hreads & Hpins & Hstart & Hcol);
    [exact Hbusy | exact Hready | exact Hfuel |].
  rewrite Hrun. eexists. split; [reflexivity |].
  cbn [reads regs pin_out start_ms current_pano_color emit set_reg reg_eqb].
  rewrite Hregs, Hreads, Hpins, Hstart, Hcol.
  repeat match goal with |- _ /\ _ => split end; try reflexivity.
  apply land_lnot_same.
Qed.

End PwmStartOutcome.

Lemma house_led_pwm_start_never_ready_witness :
  exists w',
    house_led_pwm_start dead_room attiny_header 40 boot_world = OutOfFuel w'
    /\ reads w' = 40%nat.
Proof.
  destruct (house_led_pwm_start_never_ready
              dead_room attiny_header 40 boot_world)
    as (w' & Hrun & Hreads & _); [intros n; reflexivity |].
  exists w'. split; [exact Hrun | exact Hreads].
Defined.

Lemma house_led_pwm_start_effect_witness :
  exists w',
    house_led_pwm_start quiet_room attiny_header 5 boot_world = Done tt w'
    /\ reads w' = 3%nat
    /\ regs w' TCD0_CTRLA = 1.
Proof.
  destruct (house_led_pwm_start_effect
              quiet_room attiny_header 2 5 boot_world)
    as (w' & Hrun & Hreads & _ & _ & _ & _ & Hctrla & _).
  - intros i Hi. destruct i as [| [| i]]; [reflexivity | reflexivity | lia].
  - reflexivity.
  - lia.
  - exists w'. split; [exact Hrun |]. split; [exact Hreads | exact Hctrla].
Defined.
